(** * The system rule manager of sentinel-golang (core/system/rule_manager.go)

    The rule manager keeps the active system rules in a package-level map
    from metric type to a slice of rule pointers.  [LoadRules] validates a
    candidate list, groups the accepted pointers by metric type and hands the
    new map to the registered update handler; [GetRules] copies every stored
    rule into a fresh slice.

    The embedding is shallow: Go functions become Rocq functions over an
    explicit program state.  Rule objects live in a memory addressed by
    locations, a [*Rule] is [nil] or a location, so the sharing between the
    caller's rule objects and the manager's map is kept. *)

From Stdlib Require Import ZArith NArith Lia.
From Stdlib Require Import Floats.SpecFloat.
From stdpp Require Import gmap strings list fin_maps functions.

(** ** float64

    A [float64] is an IEEE 754 binary64 datum in canonical form (53 bits of
    precision, exponents bounded by 1024).  The comparison operators of Go
    follow IEEE 754: every ordered comparison with a NaN is false. *)

Module F64.

Definition prec : Z := 53.
Definition emax : Z := 1024.

Record t := mk { val : spec_float; valid : valid_binary prec emax val = true }.

(** Go's [x < y] and [x > y] on float64. *)
Definition lt (x y : t) : bool :=
  match SFcompare (val x) (val y) with Some Lt => true | _ => false end.

Definition gt (x y : t) : bool :=
  match SFcompare (val x) (val y) with Some Gt => true | _ => false end.

Definition is_nan (x : t) : bool :=
  match val x with S754_nan => true | _ => false end.

(** The constants the rule manager and its callers use.  A finite value is
    [(-1)^s * m * 2^e] with a 53-bit mantissa. *)
Definition zero : t := mk (S754_zero false) eq_refl.
Definition neg_zero : t := mk (S754_zero true) eq_refl.
Definition one : t := mk (S754_finite false 4503599627370496 (-52)) eq_refl.
Definition neg_one : t := mk (S754_finite true 4503599627370496 (-52)) eq_refl.
(** 1.0001, 0.8 and 5.0 rounded to nearest. *)
Definition c1_0001 : t := mk (S754_finite false 4504049987333233 (-52)) eq_refl.
Definition c0_8 : t := mk (S754_finite false 7205759403792794 (-53)) eq_refl.
Definition five : t := mk (S754_finite false 5629499534213120 (-50)) eq_refl.
Definition nan : t := mk S754_nan eq_refl.

(** Correctly rounded quotient of two integers, as the Go compiler rounds a
    decimal constant. *)
Definition of_ratio (n d : Z) : spec_float :=
  SFdiv prec emax (binary_normalize prec emax n 0 false)
                  (binary_normalize prec emax d 0 false).

End F64.

Abbreviation float64 := F64.t.

(** ** Rules, pointers and memory *)

Abbreviation MetricTypeT := N (only parsing).

(** Modelled from the spec: the [Rule] struct is declared in another file of
    the package.  It carries the metric type, the numeric threshold and the
    adaptive-strategy parameter, which the manager passes through unchanged.
    The metric type is an unsigned enumeration value. *)
Record Rule := mkRule {
  MetricType : MetricTypeT;
  TriggerCount : float64;
  Strategy : Z
}.

(** Modelled from the spec: the enumerators of the metric type and the
    resource-name accessor of a rule are declared outside rule_manager.go.
    [MetricTypeSize] is the number of known metric types, [CpuUsage] the
    enumerator of the CPU-usage metric. *)
Class RuleDecls := {
  MetricTypeSize : MetricTypeT;
  CpuUsage : MetricTypeT;
  ResourceName : Rule → string
}.

Abbreviation loc := nat (only parsing).

(** [*Rule]: [None] is the nil pointer. *)
Definition ptr := option loc.

(** [[]*Rule]: [None] is the nil slice, which has length 0 like the empty one. *)
Definition slice := option (list ptr).

Definition elems (s : slice) : list ptr := default [] s.

Definition error := string.

Abbreviation RuleMap := (gmap N (list ptr)).

(** What the manager tells its collaborators: the log lines and the slot
    registration of the resource chain. *)
Inductive event :=
| LogWarnInvalidRule (rule : ptr) (err : error)
| RegisterRuleCheckSlotForResource (resource : string)
| LogErrorLoadFailed (err : error) (rules : slice)
| LogDebugTimeCost
| LogInfoRulesLoaded (r : RuleMap)
| LogInfoRulesCleared.

(** The program state: the memory holding [Rule] objects, the allocation
    frontier (every location at or above [brk] is free), the package variable
    [ruleMap] and the trace of events. *)
Record State := mkState {
  mem : loc → Rule;
  brk : loc;
  ruleMap : RuleMap;
  trace : list event
}.

Definition set_ruleMap (r : RuleMap) (st : State) : State :=
  mkState (mem st) (brk st) r (trace st).

Definition emit (evs : list event) (st : State) : State :=
  mkState (mem st) (brk st) (ruleMap st) (trace st ++ evs).

(** A store through a pointer or into an element of a slice of rules. *)
Definition store_rule (l : loc) (r : Rule) (st : State) : State :=
  mkState (<[l := r]> (mem st)) (brk st) (ruleMap st) (trace st).

(** A [[]Rule] as [GetRules] returns it: [len] consecutive cells of memory
    starting at [base]; element [i] is the cell [base + i]. *)
Record RuleSlice := mkSlice { base : loc; len : nat }.

Definition slice_values (h : loc → Rule) (s : RuleSlice) : list Rule :=
  h <$> seq (base s) (len s).

(** [ret[i] = r], and likewise an assignment to a field of [ret[i]] with [r]
    the updated element.  Go panics on an index out of range. *)
Definition slice_store (s : RuleSlice) (i : nat) (r : Rule) (st : State)
  : option State :=
  if decide (i < len s) then Some (store_rule (base s + i) r st) else None.

Fixpoint slice_stores (s : RuleSlice) (ws : list (nat * Rule)) (st : State)
  : option State :=
  match ws with
  | [] => Some st
  | (i, r) :: ws' =>
      match slice_store s i r st with
      | Some st' => slice_stores s ws' st'
      | None => None
      end
  end.

(** ** The update handler and the package variables

    An installer callback and an update handler run on the program state and
    return Go's [error] ([None] is nil).  The mutex [ruleMapMux] orders
    concurrent accesses; in this sequential model it has no effect. *)

Definition Installer := RuleMap → State → option error * State.

Definition RuleUpdateHandler := Installer → RuleMap → State → option error * State.

Record Package := mkPackage {
  ruleUpdateHandler : RuleUpdateHandler;
  state : State
}.

Section RuleManager.
Context {decls : RuleDecls}.

(** ** IsValidSystemRule *)

(** The checks on the fields of a non-nil rule. *)
Definition checkRule (r : Rule) : option error :=
  if F64.lt (TriggerCount r) F64.zero then Some "negative threshold"%string
  else if (MetricTypeSize <=? MetricType r)%N then Some "invalid metric type"%string
  else if (MetricType r =? CpuUsage)%N && F64.gt (TriggerCount r) F64.one
    then Some "invalid CPU usage, valid range is [0.0, 1.0]"%string
  else None.

Definition IsValidSystemRule (h : loc → Rule) (rule : ptr) : option error :=
  match rule with
  | None => Some "nil Rule"%string
  | Some l => checkRule (h l)
  end.

(** ** buildRuleMap *)

(** One iteration of the loop over the candidates.  The accumulator is the
    map under construction and the events emitted so far. *)
Definition buildRuleMap_step (h : loc → Rule)
    (acc : RuleMap * list event) (rule : ptr) : RuleMap * list event :=
  let '(m, evs) := acc in
  match IsValidSystemRule h rule with
  | Some err => (m, evs ++ [LogWarnInvalidRule rule err])
  | None =>
      match rule with
      | None => (m, evs) (* not reached: a nil rule is rejected above *)
      | Some l =>
          let mt := MetricType (h l) in
          let m' :=
            match m !! mt with
            | None => <[mt := [rule]]> m
            | Some rulesOfRes => <[mt := rulesOfRes ++ [rule]]> m
            end in
          (m', evs ++ [RegisterRuleCheckSlotForResource (ResourceName (h l))])
      end
  end.

Definition buildRuleMap_loop (h : loc → Rule) (rules : list ptr)
  : RuleMap * list event :=
  fold_left (buildRuleMap_step h) rules (∅, []).

Definition buildRuleMap (rules : slice) (st : State) : RuleMap * State :=
  if decide (length (elems rules) = 0) then (∅, st)
  else
    let '(m, evs) := buildRuleMap_loop (mem st) (elems rules) in
    (m, emit evs st).

(** ** onRuleUpdate and the default handler *)

Definition onRuleUpdate (r : RuleMap) (st : State) : option error * State :=
  (None,
   emit [LogDebugTimeCost;
         if decide (0 < size r) then LogInfoRulesLoaded r else LogInfoRulesCleared]
        (set_ruleMap r st)).

Definition defaultRuleUpdateHandler (onRuleUpdate : Installer) (rules : RuleMap)
  : State → option error * State :=
  onRuleUpdate rules.

Definition RegisterRuleUpdateHandler (handler : RuleUpdateHandler) (w : Package)
  : Package :=
  mkPackage handler (state w).

(** ** LoadRules and ClearRules *)

Definition LoadRules (rules : slice) (w : Package) : (bool * option error) * Package :=
  let '(m, st1) := buildRuleMap rules (state w) in
  match ruleUpdateHandler w onRuleUpdate m st1 with
  | (Some err, st2) =>
      ((false, Some err),
       mkPackage (ruleUpdateHandler w) (emit [LogErrorLoadFailed err rules] st2))
  | (None, st2) => ((true, None), mkPackage (ruleUpdateHandler w) st2)
  end.

Definition ClearRules (w : Package) : option error * Package :=
  let '((_, err), w') := LoadRules None w in (err, w').

(** ** GetRules and getRules

    Go iterates over a map in an unspecified order.  The order of one
    iteration is a parameter: a list holding every key of the map once. *)

Definition keys (m : RuleMap) : list N := (map_to_list m).*1.

Definition iteration_order (m : RuleMap) (order : list N) : Prop :=
  order ≡ₚ keys m.

(** The first loop of both functions: the buckets appended in iteration
    order. *)
Definition collect (order : list N) (m : RuleMap) : list ptr :=
  order ≫= (λ k, default [] (m !! k)).

(** The second loop of [GetRules]: [ret = append(ret, *r)] for each pointer,
    writing the cells of [ret] from [dst] on.  Dereferencing nil panics. *)
Fixpoint copy_rules (rules : list ptr) (dst : loc) (h : loc → Rule)
  : option (loc → Rule) :=
  match rules with
  | [] => Some h
  | None :: _ => None
  | Some l :: rs => copy_rules rs (S dst) (<[dst := h l]> h)
  end.

(** [GetRules] allocates the backing array of [ret] at the allocation
    frontier.  Its capacity is the number of collected pointers, so the
    appends never reallocate.  The handler variable is not read, so the
    function is given on the program state. *)
Definition GetRules_in (order : list N) (st : State) : option (RuleSlice * State) :=
  let rules := collect order (ruleMap st) in
  match copy_rules rules (brk st) (mem st) with
  | None => None
  | Some h' =>
      Some (mkSlice (brk st) (length rules),
            mkState h' (brk st + length rules) (ruleMap st) (trace st))
  end.

(** [GetRules] with the keys iterated as [map_to_list] lists them. *)
Definition GetRules (st : State) : option (RuleSlice * State) :=
  GetRules_in (keys (ruleMap st)) st.

(** The rule values a call of [GetRules] returns. *)
Definition snapshot (order : list N) (st : State) : option (list Rule) :=
  match GetRules_in order st with
  | Some (s, st') => Some (slice_values (mem st') s)
  | None => None
  end.

Definition getRules_in (order : list N) (st : State) : list ptr :=
  collect order (ruleMap st).

(** ** Well-formed states

    Go pointers refer to allocated objects: every pointer held by the map
    and every candidate pointer is below the allocation frontier. *)

Definition allocated (st : State) (rules : list ptr) : Prop :=
  ∀ l, Some l ∈ rules → l < brk st.

Definition no_nil (rules : list ptr) : Prop := None ∉ rules.

Definition wf_state (st : State) : Prop :=
  ∀ k ps, ruleMap st !! k = Some ps → no_nil ps ∧ allocated st ps.

(** ** What the index is compared with

    The bucket a candidate list prescribes for metric type [k]: the candidates
    that pass validation and carry type [k], in the order of the list. *)

Definition metric_of (h : loc → Rule) (p : ptr) : option N :=
  (λ l, MetricType (h l)) <$> p.

Definition in_bucket (h : loc → Rule) (k : N) (p : ptr) : Prop :=
  IsValidSystemRule h p = None ∧ metric_of h p = Some k.

#[global] Instance in_bucket_dec h k p : Decision (in_bucket h k p).
Proof. unfold in_bucket. apply _. Defined.

Definition bucket (h : loc → Rule) (k : N) (rules : list ptr) : list ptr :=
  filter (in_bucket h k) rules.

Definition valid_rules (h : loc → Rule) (rules : list ptr) : list ptr :=
  filter (λ p, IsValidSystemRule h p = None) rules.

(** A bucket exists in the map only once it holds a rule. *)
Definition nonempty {A} (l : list A) : option (list A) :=
  match l with [] => None | _ => Some l end.

(** The rule objects a list of pointers refers to. *)
Definition targets (h : loc → Rule) (rules : list ptr) : list Rule :=
  omap (fmap h) rules.

(** ** The handlers a load is run with *)

(** A handler keeps the index on error when every run of it that returns an
    error leaves the active map as it found it. *)
Definition keeps_index_on_error (handler : RuleUpdateHandler) : Prop :=
  ∀ m st e st', handler onRuleUpdate m st = (Some e, st') → ruleMap st' = ruleMap st.

(** A handler publishes on success when every run of it that returns nil has
    left the candidate map installed, as its contract asks: it is to invoke
    the installer callback or to reject. *)
Definition publishes_on_success (handler : RuleUpdateHandler) : Prop :=
  ∀ m st st', handler onRuleUpdate m st = (None, st') → ruleMap st' = m.

(** A handler that checks the candidate map and either forwards it to the
    installer or rejects it. *)
Definition guardedHandler (ok : RuleMap → bool) (e : error) : RuleUpdateHandler :=
  λ onRuleUpdate rules st,
    if ok rules then onRuleUpdate rules st else (Some e, st).

(** A handler that installs the candidate map and then reports that a later
    step of its own failed. *)
Definition installThenFail (e : error) : RuleUpdateHandler :=
  λ onRuleUpdate rules st, (Some e, (onRuleUpdate rules st).2).

(** ** The events of a load

    What [buildRuleMap] tells its collaborators about one candidate: a
    warning with the validator's error for a rejected candidate, the slot
    registration of the rule's resource for an accepted one. *)
Definition candidate_event (h : loc → Rule) (p : ptr) : event :=
  match p with
  | None => LogWarnInvalidRule None "nil Rule"%string
  | Some l =>
      match checkRule (h l) with
      | Some err => LogWarnInvalidRule (Some l) err
      | None => RegisterRuleCheckSlotForResource (ResourceName (h l))
      end
  end.

(** The resource of a slot registration and the rule of a warning. *)
Definition registered_resource (ev : event) : option string :=
  match ev with RegisterRuleCheckSlotForResource r => Some r | _ => None end.

Definition warned_rule (ev : event) : option ptr :=
  match ev with LogWarnInvalidRule p _ => Some p | _ => None end.

Definition invalid_rules (h : loc → Rule) (rules : list ptr) : list ptr :=
  filter (λ p, IsValidSystemRule h p ≠ None) rules.

(** The four errors of the validator. *)
Definition errNilRule : error := "nil Rule"%string.
Definition errNegativeThreshold : error := "negative threshold"%string.
Definition errInvalidMetricType : error := "invalid metric type"%string.
Definition errInvalidCpuUsage : error :=
  "invalid CPU usage, valid range is [0.0, 1.0]"%string.

End RuleManager.

(** ** A concrete package

    An enumeration of five metric types whose last one is the CPU usage, a
    memory with four rule objects, and the package as it is initialised:
    empty map, default handler. *)

Definition exampleDecls : RuleDecls :=
  {| MetricTypeSize := 5; CpuUsage := 4; ResourceName := λ _, "system"%string |}.

Definition zeroRule : Rule := mkRule 0 F64.zero 0.

(** [0]: CPU usage 0.8; [1]: CPU usage 5.0; [2]: metric 0 with threshold 1.0;
    [3]: CPU usage 1.0. *)
Definition exampleMem : loc → Rule :=
  <[0 := mkRule 4 F64.c0_8 0]>
    (<[1 := mkRule 4 F64.five 0]>
       (<[2 := mkRule 0 F64.one 1]>
          (<[3 := mkRule 4 F64.one 1]> (λ _, zeroRule)))).

Definition exampleState : State := mkState exampleMem 4 ∅ [].

Definition examplePackage : Package :=
  mkPackage defaultRuleUpdateHandler exampleState.

Definition exampleRules : list ptr := [Some 0; Some 1; None; Some 2; Some 3].

Definition exampleValid : list ptr := [Some 0; Some 2; Some 3].

Definition exampleInvalid : list ptr := [Some 1; None].

(** The package after [exampleRules] were loaded. *)
Definition loadedPackage : Package :=
  (LoadRules (decls := exampleDecls) (Some exampleRules) examplePackage).2.

(** The package with a handler that rejects every candidate map, and with
    one that installs the map before it fails. *)
Definition rejectingPackage : Package :=
  mkPackage (guardedHandler (λ _, false) "rejected"%string) exampleState.

Definition failingPackage : Package :=
  mkPackage (installThenFail "fan-out failed"%string) exampleState.

(** A call of [GetRules] on the loaded package, iterating the CPU-usage
    bucket first, and two stores into the returned slice. *)
Definition exampleCopy : RuleSlice * State :=
  default (mkSlice 0 0, exampleState) (GetRules_in [4; 0]%N (state loadedPackage)).

Definition exampleStores : list (nat * Rule) :=
  [(0, zeroRule); (2, mkRule 0 F64.five 9)].

Definition mutatedState : State :=
  default exampleState (slice_stores exampleCopy.1 exampleStores exampleCopy.2).

(** The loaded package with the rejecting handler registered. *)
Definition guardedLoadedPackage : Package :=
  RegisterRuleUpdateHandler (guardedHandler (λ _, false) "rejected"%string)
    loadedPackage.

(** A CPU-usage rule with threshold 5.0, which does not pass validation. *)
Definition overloadRule : Rule := mkRule 4 F64.five 7.

(** A memory whose rules are CPU-usage rules with a NaN threshold. *)
Definition nanMem : loc → Rule := λ _, mkRule 4 F64.nan 0.

Definition nanState : State := mkState nanMem 1 ∅ [].

Section Properties.
Context {decls : RuleDecls}.

(** ** float64 constants and NaN *)

Lemma F64_constants_rounded :
  F64.of_ratio 1 1 = F64.val F64.one
  ∧ F64.of_ratio (-1) 1 = F64.val F64.neg_one
  ∧ F64.of_ratio 10001 10000 = F64.val F64.c1_0001
  ∧ F64.of_ratio 8 10 = F64.val F64.c0_8
  ∧ F64.of_ratio 5 1 = F64.val F64.five.
Proof. split_and!; by vm_compute. Qed.

Lemma F64_neg_zero_not_negative : F64.lt F64.neg_zero F64.zero = false.
Proof. done. Qed.

Lemma F64_nan_unordered x y :
  F64.is_nan x = true → F64.lt x y = false ∧ F64.gt x y = false.
Proof.
  unfold F64.is_nan, F64.lt, F64.gt. by destruct (F64.val x).
Qed.

(** ** The validator *)

Lemma checkRule_None r :
  checkRule r = None ↔
    F64.lt (TriggerCount r) F64.zero = false
    ∧ (MetricType r < MetricTypeSize)%N
    ∧ (MetricType r = CpuUsage → F64.gt (TriggerCount r) F64.one = false).
Proof.
  unfold checkRule.
  destruct (F64.lt (TriggerCount r) F64.zero); [intuition congruence|].
  destruct (N.leb_spec MetricTypeSize (MetricType r)) as [Hge|Hlt].
  { split; [done|]. intros (_ & ? & _). lia. }
  destruct (N.eqb_spec (MetricType r) CpuUsage) as [Heq|Hne]; simpl.
  - destruct (F64.gt (TriggerCount r) F64.one); intuition congruence.
  - intuition congruence.
Qed.

Lemma IsValidSystemRule_None h p :
  IsValidSystemRule h p = None ↔ ∃ l, p = Some l ∧ checkRule (h l) = None.
Proof.
  destruct p as [l|]; simpl.
  - split; [by exists l|]. by intros (? & [= <-] & ?).
  - split; [done|]. by intros (? & ? & ?).
Qed.

Lemma in_bucket_inv h k p :
  in_bucket h k p → ∃ l, p = Some l ∧ checkRule (h l) = None ∧ MetricType (h l) = k.
Proof.
  intros [Hv Hk]. apply IsValidSystemRule_None in Hv as [l [-> Hc]].
  simpl in Hk. exists l. by simplify_eq.
Qed.

Lemma in_bucket_metric h l :
  checkRule (h l) = None → in_bucket h (MetricType (h l)) (Some l).
Proof. intros Hc. by split. Qed.

Lemma elem_of_bucket h k rules p :
  p ∈ bucket h k rules ↔ in_bucket h k p ∧ p ∈ rules.
Proof. apply list_elem_of_filter. Qed.

Lemma elem_of_valid_rules h rules p :
  p ∈ valid_rules h rules ↔ IsValidSystemRule h p = None ∧ p ∈ rules.
Proof. unfold valid_rules. by rewrite list_elem_of_filter. Qed.

Lemma bucket_snoc_in h k rules p :
  in_bucket h k p → bucket h k (rules ++ [p]) = bucket h k rules ++ [p].
Proof.
  intros Hin. unfold bucket. rewrite list.filter_app. f_equal.
  rewrite filter_cons. by destruct (decide (in_bucket h k p)).
Qed.

Lemma bucket_snoc_out h k rules p :
  ¬ in_bucket h k p → bucket h k (rules ++ [p]) = bucket h k rules.
Proof.
  intros Hout. unfold bucket. rewrite list.filter_app, filter_cons.
  destruct (decide (in_bucket h k p)); [done|]. by rewrite filter_nil, app_nil_r.
Qed.

Lemma valid_rules_snoc_in h rules p :
  IsValidSystemRule h p = None →
  valid_rules h (rules ++ [p]) = valid_rules h rules ++ [p].
Proof.
  intros Hin. unfold valid_rules. rewrite list.filter_app. f_equal.
  rewrite filter_cons. by rewrite decide_True.
Qed.

Lemma valid_rules_snoc_out h rules p :
  IsValidSystemRule h p ≠ None →
  valid_rules h (rules ++ [p]) = valid_rules h rules.
Proof.
  intros Hout. unfold valid_rules. rewrite list.filter_app, filter_cons.
  rewrite decide_False by done. by rewrite filter_nil, app_nil_r.
Qed.

Lemma nonempty_snoc {A} (l : list A) x : nonempty (l ++ [x]) = Some (l ++ [x]).
Proof. by destruct l. Qed.

Lemma nonempty_Some {A} (l l' : list A) : nonempty l = Some l' ↔ l' = l ∧ l ≠ [].
Proof.
  destruct l; simpl; split; try done.
  - by intros [_ ?].
  - by intros [= <-].
  - by intros [-> _].
Qed.

(** ** buildRuleMap *)

Lemma buildRuleMap_loop_snoc h rules p :
  buildRuleMap_loop h (rules ++ [p])
  = buildRuleMap_step h (buildRuleMap_loop h rules) p.
Proof. unfold buildRuleMap_loop. by rewrite fold_left_app. Qed.

(** Every bucket of the built map is the prescribed one. *)
Lemma buildRuleMap_loop_lookup h rules k :
  (buildRuleMap_loop h rules).1 !! k = nonempty (bucket h k rules).
Proof.
  induction rules as [|p rules IH] using rev_ind; [done|].
  rewrite buildRuleMap_loop_snoc.
  destruct (buildRuleMap_loop h rules) as [m evs]. simpl in IH |- *.
  destruct (IsValidSystemRule h p) as [err|] eqn:Hv.
  { simpl. rewrite bucket_snoc_out; [done|]. intros [? _]. congruence. }
  destruct p as [l|]; [|done]. simpl in Hv.
  pose proof (in_bucket_metric h l Hv) as Hin.
  destruct (decide (k = MetricType (h l))) as [->|Hne].
  - rewrite (bucket_snoc_in _ _ _ _ Hin), nonempty_snoc.
    rewrite IH. destruct (bucket h (MetricType (h l)) rules) eqn:Hb; simpl;
      by rewrite lookup_insert_eq.
  - rewrite bucket_snoc_out by (intros [_ Hk]; simpl in Hk; congruence).
    destruct (m !! MetricType (h l)); simpl; by rewrite lookup_insert_ne.
Qed.


Lemma buildRuleMap_index rules st :
  (buildRuleMap rules st).1 = (buildRuleMap_loop (mem st) (elems rules)).1.
Proof.
  unfold buildRuleMap. destruct (elems rules) as [|p ps]; [done|].
  simpl. by destruct (buildRuleMap_loop (mem st) (p :: ps)).
Qed.

(** Building the map leaves the memory and the active map alone; it only
    emits events. *)
Lemma buildRuleMap_frame rules st :
  mem (buildRuleMap rules st).2 = mem st
  ∧ brk (buildRuleMap rules st).2 = brk st
  ∧ ruleMap (buildRuleMap rules st).2 = ruleMap st.
Proof.
  unfold buildRuleMap. destruct (elems rules) as [|p ps]; [done|].
  simpl. by destruct (buildRuleMap_loop (mem st) (p :: ps)).
Qed.

Lemma buildRuleMap_lookup rules st k :
  (buildRuleMap rules st).1 !! k = nonempty (bucket (mem st) k (elems rules)).
Proof. rewrite buildRuleMap_index. apply buildRuleMap_loop_lookup. Qed.

(** ** Collecting the buckets *)

Lemma collect_entries (m : RuleMap) (l : list (N * list ptr)) :
  (∀ k v, (k, v) ∈ l → m !! k = Some v) →
  collect l.*1 m = l ≫= snd.
Proof.
  unfold collect. induction l as [|[k v] l IH]; intros Hl; [done|].
  rewrite fmap_cons, !bind_cons. simpl.
  rewrite (Hl k v) by left. simpl. f_equal.
  apply IH. intros k' v' Hin. apply Hl. by right.
Qed.

Lemma collect_keys (m : RuleMap) : collect (keys m) m = map_to_list m ≫= snd.
Proof.
  apply collect_entries. intros k v Hin. by apply elem_of_map_to_list.
Qed.

Lemma collect_empty order : collect order ∅ = [].
Proof.
  unfold collect. induction order as [|k order IH]; [done|].
  by rewrite bind_cons, IH, lookup_empty.
Qed.

Lemma collect_Permutation (m : RuleMap) order order' :
  order ≡ₚ order' → collect order m ≡ₚ collect order' m.
Proof. unfold collect. by intros ->. Qed.

Lemma elem_of_collect (m : RuleMap) order p :
  p ∈ collect order m → ∃ k ps, m !! k = Some ps ∧ p ∈ ps.
Proof.
  unfold collect. rewrite list_elem_of_bind. intros (k & Hp & _).
  destruct (m !! k) as [ps|] eqn:Hk; simpl in Hp.
  - by exists k, ps.
  - by apply elem_of_nil in Hp.
Qed.

(** Whatever the iteration order, the collected pointers are the accepted
    candidates, each as often as it occurs in the list. *)
Lemma flat_buildRuleMap_loop h rules :
  map_to_list (buildRuleMap_loop h rules).1 ≫= snd ≡ₚ valid_rules h rules.
Proof.
  induction rules as [|p rules IH] using rev_ind.
  { unfold buildRuleMap_loop. simpl. by rewrite map_to_list_empty. }
  rewrite buildRuleMap_loop_snoc.
  destruct (buildRuleMap_loop h rules) as [m evs]. simpl in IH |- *.
  destruct (IsValidSystemRule h p) as [err|] eqn:Hv.
  { simpl. by rewrite valid_rules_snoc_out by congruence. }
  rewrite valid_rules_snoc_in by done.
  destruct p as [l|]; [|done].
  rewrite <- IH. clear IH. simpl.
  destruct (m !! MetricType (h l)) as [b|] eqn:Hb.
  - rewrite <- (insert_delete_eq m).
    rewrite map_to_list_insert by apply lookup_delete_eq.
    rewrite <- (map_to_list_delete m _ b Hb).
    rewrite !bind_cons. simpl. rewrite <- !(assoc_L (++)).
    apply Permutation_app_head, Permutation_app_comm.
  - rewrite map_to_list_insert by done.
    rewrite bind_cons. simpl. apply Permutation_cons_append.
Qed.

Lemma collect_buildRuleMap rules st order :
  iteration_order (buildRuleMap rules st).1 order →
  collect order (buildRuleMap rules st).1 ≡ₚ valid_rules (mem st) (elems rules).
Proof.
  intros Ho. rewrite (collect_Permutation _ _ _ Ho), collect_keys.
  rewrite buildRuleMap_index. apply flat_buildRuleMap_loop.
Qed.


(** ** Copying the rules out *)

Lemma no_nil_locs ps : no_nil ps → ∃ locs : list loc, ps = Some <$> locs.
Proof.
  unfold no_nil. induction ps as [|[l|] ps IH]; intros Hnil.
  - by exists [].
  - destruct IH as [locs ->]; [by intros ?; apply Hnil; right|].
    by exists (l :: locs).
  - exfalso. apply Hnil. left.
Qed.

Lemma targets_locs h (locs : list loc) : targets h (Some <$> locs) = h <$> locs.
Proof. unfold targets. induction locs as [|l locs IH]; [done|]. simpl. by f_equal. Qed.

Lemma elem_of_targets h rules r :
  r ∈ targets h rules ↔ ∃ l, Some l ∈ rules ∧ r = h l.
Proof.
  unfold targets. rewrite list_elem_of_omap. split.
  - intros ([l|] & Hin & Hr); simplify_eq/=. by exists l.
  - intros (l & Hin & ->). by exists (Some l).
Qed.

Lemma targets_Permutation h rules rules' :
  rules ≡ₚ rules' → targets h rules ≡ₚ targets h rules'.
Proof. unfold targets. by intros ->. Qed.

(** Copying pointers that all lie below the destination succeeds, leaves the
    cells below the destination as they were, and fills the destination with
    the pointed-to rules. *)
Lemma copy_rules_below (locs : list loc) dst h :
  (∀ l, l ∈ locs → l < dst) →
  ∃ h', copy_rules (Some <$> locs) dst h = Some h'
        ∧ (∀ l, l < dst → h' l = h l)
        ∧ h' <$> seq dst (length locs) = h <$> locs.
Proof.
  revert dst h. induction locs as [|l locs IH]; intros dst h Hlt.
  { by exists h. }
  destruct (IH (S dst) (<[dst := h l]> h)) as (h' & Hcopy & Hlow & Hvals).
  { intros l' Hin. assert (l' < dst) by (apply Hlt; by right). lia. }
  exists h'. split_and!.
  - done.
  - intros l' Hl'. rewrite Hlow by lia. apply fn_lookup_insert_ne. lia.
  - change (seq dst (length (l :: locs))) with (dst :: seq (S dst) (length locs)).
    rewrite !fmap_cons. f_equal.
    + rewrite Hlow by lia. apply fn_lookup_insert.
    + rewrite Hvals. apply list_fmap_ext. intros i l' Hin.
      apply fn_lookup_insert_ne.
      assert (l' < dst); [|lia]. apply Hlt. right. by eapply list_elem_of_lookup_2.
Qed.

Lemma wf_state_collect st order :
  wf_state st →
  no_nil (collect order (ruleMap st)) ∧ allocated st (collect order (ruleMap st)).
Proof.
  intros Hwf. split.
  - intros (k & ps & Hk & Hin)%elem_of_collect. by apply (Hwf k ps Hk).
  - intros l (k & ps & Hk & Hin)%elem_of_collect. by apply (Hwf k ps Hk).
Qed.

(** In a well-formed state [GetRules] returns a fresh slice and changes no
    cell that was allocated before the call. *)
Lemma GetRules_in_wf order st :
  wf_state st →
  ∃ h', GetRules_in order st
        = Some (mkSlice (brk st) (length (collect order (ruleMap st))),
                mkState h' (brk st + length (collect order (ruleMap st)))
                        (ruleMap st) (trace st))
      ∧ (∀ l, l < brk st → h' l = mem st l)
      ∧ h' <$> seq (brk st) (length (collect order (ruleMap st)))
        = targets (mem st) (collect order (ruleMap st)).
Proof.
  intros Hwf. destruct (wf_state_collect st order Hwf) as [Hnil Halloc].
  destruct (no_nil_locs _ Hnil) as [locs Hlocs].
  destruct (copy_rules_below locs (brk st) (mem st)) as (h' & Hcopy & Hlow & Hvals).
  { intros l Hl. apply Halloc. rewrite Hlocs. by apply list_elem_of_fmap_2. }
  exists h'. unfold GetRules_in. rewrite Hlocs, Hcopy, targets_locs.
  by rewrite length_fmap.
Qed.

Lemma snapshot_wf order st :
  wf_state st →
  snapshot order st = Some (targets (mem st) (collect order (ruleMap st))).
Proof.
  intros Hwf. destruct (GetRules_in_wf order st Hwf) as (h' & Hget & _ & Hvals).
  unfold snapshot. rewrite Hget. unfold slice_values. simpl. by rewrite Hvals.
Qed.

(** The keys as [map_to_list] lists them are an iteration order, so
    [GetRules] returns in every well-formed state. *)
Lemma keys_iteration_order (m : RuleMap) : iteration_order m (keys m).
Proof. unfold iteration_order. reflexivity. Qed.

Lemma GetRules_total st : wf_state st → is_Some (GetRules st).
Proof.
  intros Hwf. unfold GetRules.
  destruct (GetRules_in_wf (keys (ruleMap st)) st Hwf) as (h' & -> & _).
  by eexists.
Qed.

(** ** Loading with the default handler *)

Lemma LoadRules_default rules w :
  ruleUpdateHandler w = defaultRuleUpdateHandler →
  (LoadRules rules w).1 = (true, None)
  ∧ ruleUpdateHandler (LoadRules rules w).2 = defaultRuleUpdateHandler
  ∧ ruleMap (state (LoadRules rules w).2) = (buildRuleMap rules (state w)).1
  ∧ mem (state (LoadRules rules w).2) = mem (state w)
  ∧ brk (state (LoadRules rules w).2) = brk (state w).
Proof.
  intros Hh. unfold LoadRules. rewrite Hh.
  destruct (buildRuleMap_frame rules (state w)) as (Hmem & Hbrk & _).
  destruct (buildRuleMap rules (state w)) as [m st1]. simpl in *.
  by rewrite Hmem, Hbrk.
Qed.

Lemma buildRuleMap_wf rules st st' :
  allocated st (elems rules) →
  ruleMap st' = (buildRuleMap rules st).1 → brk st' = brk st →
  wf_state st'.
Proof.
  intros Halloc Hmap Hbrk k ps. rewrite Hmap, buildRuleMap_lookup.
  intros [-> _]%nonempty_Some. split.
  - intros [Hin _]%elem_of_bucket. by apply in_bucket_inv in Hin as (l & ? & _).
  - intros l [_ Hin]%elem_of_bucket. rewrite Hbrk. by apply Halloc.
Qed.

Lemma LoadRules_default_wf rules w :
  ruleUpdateHandler w = defaultRuleUpdateHandler →
  allocated (state w) (elems rules) →
  wf_state (state (LoadRules rules w).2).
Proof.
  intros Hh Halloc.
  destruct (LoadRules_default rules w Hh) as (_ & _ & Hmap & _ & Hbrk).
  by eapply buildRuleMap_wf.
Qed.


Lemma bucket_valid_rules h k rules :
  bucket h k (valid_rules h rules) = bucket h k rules.
Proof.
  induction rules as [|p rules IH]; [done|].
  unfold valid_rules, bucket in *. rewrite !filter_cons.
  destruct (decide (IsValidSystemRule h p = None)) as [Hv|Hv].
  - rewrite filter_cons. destruct (decide (in_bucket h k p)); by rewrite IH.
  - rewrite decide_False by (by intros [? _]). apply IH.
Qed.

(** Dropping the rejected candidates beforehand gives the same map. *)
Lemma buildRuleMap_valid_rules rules st :
  (buildRuleMap (Some (valid_rules (mem st) (elems rules))) st).1
  = (buildRuleMap rules st).1.
Proof.
  apply map_eq. intros k. rewrite !buildRuleMap_lookup. simpl.
  by rewrite bucket_valid_rules.
Qed.

Lemma valid_rules_all h rules :
  (∀ p, p ∈ rules → IsValidSystemRule h p = None) → valid_rules h rules = rules.
Proof.
  induction rules as [|p rules IH]; intros Hall; [done|].
  unfold valid_rules in *. rewrite filter_cons, decide_True by (apply Hall; left).
  f_equal. apply IH. intros q Hq. apply Hall. by right.
Qed.

Lemma valid_rules_none h rules :
  (∀ p, p ∈ rules → IsValidSystemRule h p ≠ None) → valid_rules h rules = [].
Proof.
  induction rules as [|p rules IH]; intros Hall; [done|].
  unfold valid_rules in *. rewrite filter_cons, decide_False by (apply Hall; left).
  apply IH. intros q Hq. apply Hall. by right.
Qed.

Lemma buildRuleMap_no_valid rules st :
  valid_rules (mem st) (elems rules) = [] → (buildRuleMap rules st).1 = ∅.
Proof.
  intros Hnone. rewrite <- buildRuleMap_valid_rules, Hnone.
  by rewrite buildRuleMap_index.
Qed.

Lemma targets_ext h h' rules :
  (∀ l, Some l ∈ rules → h l = h' l) → targets h rules = targets h' rules.
Proof.
  unfold targets. induction rules as [|[l|] rules IH]; intros Hext; simpl.
  - done.
  - rewrite (Hext l) by left. f_equal. apply IH. intros l' Hl'. apply Hext. by right.
  - apply IH. intros l' Hl'. apply Hext. by right.
Qed.

(** Stores into the returned slice stay at or above its base. *)
Lemma slice_stores_frame s ws st st' :
  slice_stores s ws st = Some st' →
  ruleMap st' = ruleMap st ∧ brk st' = brk st ∧ trace st' = trace st
  ∧ (∀ l, l < base s → mem st' l = mem st l).
Proof.
  revert st. induction ws as [|[i r] ws IH]; intros st Hst; simpl in Hst.
  { by simplify_eq. }
  unfold slice_store in Hst. destruct (decide (i < len s)); [|done].
  apply IH in Hst as (Hmap & Hbrk & Htr & Hmem). split_and!; try done.
  intros a Ha. rewrite Hmem by done. simpl. apply fn_lookup_insert_ne. lia.
Qed.

(** ** Handlers *)

Lemma onRuleUpdate_installs r st :
  (onRuleUpdate r st).1 = None
  ∧ ruleMap (onRuleUpdate r st).2 = r
  ∧ mem (onRuleUpdate r st).2 = mem st
  ∧ brk (onRuleUpdate r st).2 = brk st.
Proof. done. Qed.

Lemma defaultRuleUpdateHandler_keeps : keeps_index_on_error defaultRuleUpdateHandler.
Proof. intros m st e st' Hrun. by simplify_eq. Qed.

Lemma defaultRuleUpdateHandler_publishes :
  publishes_on_success defaultRuleUpdateHandler.
Proof.
  intros m st st' Hrun. unfold defaultRuleUpdateHandler, onRuleUpdate in Hrun.
  by injection Hrun as <-.
Qed.

Lemma guardedHandler_publishes ok e : publishes_on_success (guardedHandler ok e).
Proof.
  intros m st st' Hrun. unfold guardedHandler, onRuleUpdate in Hrun.
  destruct (ok m); [|done]. by injection Hrun as <-.
Qed.

Lemma RegisterRuleUpdateHandler_spec handler w :
  ruleUpdateHandler (RegisterRuleUpdateHandler handler w) = handler
  ∧ state (RegisterRuleUpdateHandler handler w) = state w.
Proof. done. Qed.

Lemma guardedHandler_keeps ok e : keeps_index_on_error (guardedHandler ok e).
Proof.
  intros m st e' st' Hrun. unfold guardedHandler in Hrun.
  destruct (ok m); by simplify_eq.
Qed.


(** ** Validation *)

(** A NaN threshold is neither below 0 nor above 1, so it passes the checks
    on the threshold. *)
Lemma checkRule_nan mt s :
  (mt < MetricTypeSize)%N → checkRule (mkRule mt F64.nan s) = None.
Proof. intros Hmt. apply checkRule_None. simpl. split_and!; done. Qed.

(** C3. [IsValidSystemRule] returns nil exactly when the rule pointer is not
    nil, the threshold is not negative, the metric type lies below
    [MetricTypeSize] and, for the CPU-usage metric, the threshold does not
    exceed 1.0.  In particular a CPU-usage rule with threshold exactly 1.0
    passes, one with threshold 1.0001 is rejected, a threshold of -1 is
    rejected for every metric type, and a metric type outside the enumerated
    range is rejected. *)
Theorem IsValidSystemRule_iff :
  (CpuUsage < MetricTypeSize)%N →
  (∀ h p,
      IsValidSystemRule h p = None ↔
        ∃ l, p = Some l
             ∧ F64.lt (TriggerCount (h l)) F64.zero = false
             ∧ (MetricType (h l) < MetricTypeSize)%N
             ∧ (MetricType (h l) = CpuUsage →
                F64.gt (TriggerCount (h l)) F64.one = false))
  ∧ (∀ h l s, h l = mkRule CpuUsage F64.one s →
       IsValidSystemRule h (Some l) = None)
  ∧ (∀ h l s, h l = mkRule CpuUsage F64.c1_0001 s →
       IsValidSystemRule h (Some l)
       = Some "invalid CPU usage, valid range is [0.0, 1.0]"%string)
  ∧ (∀ h l mt s, h l = mkRule mt F64.neg_one s →
       IsValidSystemRule h (Some l) = Some "negative threshold"%string)
  ∧ (∀ h l, (MetricTypeSize ≤ MetricType (h l))%N →
       is_Some (IsValidSystemRule h (Some l))).
Proof.
  intros Hcpu. split_and!.
  - intros h p. rewrite IsValidSystemRule_None.
    split; intros (l & -> & Hc); exists l; split; try done; by apply checkRule_None.
  - intros h l s Hl. simpl. rewrite Hl. apply checkRule_None. simpl.
    split_and!; [done | lia | done].
  - intros h l s Hl. simpl. rewrite Hl. unfold checkRule. simpl.
    change (F64.lt F64.c1_0001 F64.zero) with false.
    change (F64.gt F64.c1_0001 F64.one) with true.
    rewrite N.eqb_refl. simpl.
    destruct (N.leb_spec MetricTypeSize CpuUsage); [lia | done].
  - intros h l mt s Hl. simpl. by rewrite Hl.
  - intros h l Hge. simpl. unfold checkRule.
    destruct (F64.lt (TriggerCount (h l)) F64.zero); [by eexists|].
    destruct (N.leb_spec MetricTypeSize (MetricType (h l))); [by eexists | lia].
Qed.

(** ** The built index *)

(** C7. Within each bucket of the map built by [buildRuleMap] the accepted
    rules appear in the order in which they occur in the candidate list: the
    bucket of a metric type is the sub-list of the candidates that pass
    validation and carry that type.  A bucket is created only with its first
    accepted rule, so a type without accepted rule has no bucket. *)
Theorem buildRuleMap_bucket_order rules st :
  (∀ k ps, (buildRuleMap rules st).1 !! k = Some ps →
     ps = bucket (mem st) k (elems rules)
     ∧ ps `sublist_of` elems rules
     ∧ ps ≠ [])
  ∧ (∀ k, (buildRuleMap rules st).1 !! k = None ↔
       bucket (mem st) k (elems rules) = []).
Proof.
  split.
  - intros k ps. rewrite buildRuleMap_lookup. intros [-> Hne]%nonempty_Some.
    split_and!; [done | apply sublist_filter | done].
  - intros k. rewrite buildRuleMap_lookup.
    destruct (bucket (mem st) k (elems rules)); simpl; split; done.
Qed.

(** ** Loading and reading back *)

(** C1. With the default handler, loading a list [R] of rules that all pass
    validation and then calling [GetRules] returns exactly the rules of [R]:
    the returned values are those of [R] up to order, so every rule of [R]
    appears and nothing else does.  In the installed index every rule lies in
    the bucket keyed by its own metric type, and every rule of [R] lies in
    such a bucket. *)
Theorem LoadRules_GetRules_valid w R order :
  ruleUpdateHandler w = defaultRuleUpdateHandler →
  (∀ p, p ∈ R → IsValidSystemRule (mem (state w)) p = None) →
  allocated (state w) R →
  iteration_order (ruleMap (state (LoadRules (Some R) w).2)) order →
  ∃ s st',
    GetRules_in order (state (LoadRules (Some R) w).2) = Some (s, st')
    ∧ slice_values (mem st') s ≡ₚ targets (mem (state w)) R
    ∧ (∀ r, r ∈ slice_values (mem st') s ↔ ∃ l, Some l ∈ R ∧ r = mem (state w) l)
    ∧ (∀ k ps p,
         ruleMap (state (LoadRules (Some R) w).2) !! k = Some ps → p ∈ ps →
         p ∈ R ∧ metric_of (mem (state w)) p = Some k)
    ∧ (∀ p, p ∈ R →
         ∃ k ps, metric_of (mem (state w)) p = Some k
                 ∧ ruleMap (state (LoadRules (Some R) w).2) !! k = Some ps
                 ∧ p ∈ ps).
Proof.
  intros Hh Hvalid Halloc Horder.
  destruct (LoadRules_default (Some R) w Hh) as (_ & _ & Hmap & Hmem & Hbrk).
  pose proof (LoadRules_default_wf (Some R) w Hh Halloc) as Hwf.
  destruct (GetRules_in_wf order _ Hwf) as (h' & Hget & _ & Hvals).
  rewrite Hmap in Horder.
  pose proof (collect_buildRuleMap _ _ _ Horder) as Hperm.
  simpl in Hperm. rewrite valid_rules_all in Hperm by done.
  assert (slice_values h' (mkSlice (brk (state (LoadRules (Some R) w).2))
      (length (collect order (ruleMap (state (LoadRules (Some R) w).2)))))
      ≡ₚ targets (mem (state w)) R) as Hres.
  { unfold slice_values. simpl. rewrite Hvals, Hmem, Hmap.
    by apply targets_Permutation. }
  eexists _, _. split; [exact Hget|]. simpl. split_and!.
  - exact Hres.
  - intros r. rewrite Hres. apply elem_of_targets.
  - intros k ps p. rewrite Hmap, buildRuleMap_lookup.
    intros [-> _]%nonempty_Some [[_ Hk] Hin]%elem_of_bucket. done.
  - intros p Hp. destruct (proj1 (IsValidSystemRule_None _ _) (Hvalid p Hp))
      as (l & -> & Hc).
    exists (MetricType (mem (state w) l)), (bucket (mem (state w))
      (MetricType (mem (state w) l)) R).
    assert (Some l ∈ bucket (mem (state w)) (MetricType (mem (state w) l)) R) as Hin.
    { apply elem_of_bucket. split; [by apply in_bucket_metric | done]. }
    split_and!; [done | | done].
    rewrite Hmap, buildRuleMap_lookup. simpl. apply nonempty_Some.
    split; [done|]. intros Hnil. rewrite Hnil in Hin. by apply elem_of_nil in Hin.
Qed.


(** C4. With the default handler, loading a list that mixes valid and invalid
    rules succeeds.  Every rule of the following snapshot passes validation,
    every valid candidate is in it, and the pointers the store holds are
    exactly the valid candidates.  The installed index is the one any list
    with the same valid candidates installs, however many invalid rules that
    list holds and wherever they sit.  Every rule in the index built by
    [buildRuleMap] passes [IsValidSystemRule]. *)
Theorem LoadRules_drops_invalid w R order :
  ruleUpdateHandler w = defaultRuleUpdateHandler →
  allocated (state w) R →
  iteration_order (ruleMap (state (LoadRules (Some R) w).2)) order →
  (LoadRules (Some R) w).1 = (true, None)
  ∧ (∃ vals,
       snapshot order (state (LoadRules (Some R) w).2) = Some vals
       ∧ vals ≡ₚ targets (mem (state w)) (valid_rules (mem (state w)) R)
       ∧ (∀ r, r ∈ vals → checkRule r = None)
       ∧ (∀ l, Some l ∈ R → checkRule (mem (state w) l) = None →
            mem (state w) l ∈ vals))
  ∧ (∀ p, p ∈ getRules_in order (state (LoadRules (Some R) w).2) ↔
       p ∈ R ∧ IsValidSystemRule (mem (state w)) p = None)
  ∧ (∀ R', valid_rules (mem (state w)) R' = valid_rules (mem (state w)) R →
       (buildRuleMap (Some R') (state w)).1
       = ruleMap (state (LoadRules (Some R) w).2))
  ∧ (∀ k ps p, (buildRuleMap (Some R) (state w)).1 !! k = Some ps → p ∈ ps →
       IsValidSystemRule (mem (state w)) p = None).
Proof.
  intros Hh Halloc Horder.
  destruct (LoadRules_default (Some R) w Hh) as (Hres & _ & Hmap & Hmem & Hbrk).
  pose proof (LoadRules_default_wf (Some R) w Hh Halloc) as Hwf.
  rewrite Hmap in Horder.
  pose proof (collect_buildRuleMap _ _ _ Horder) as Hperm. simpl in Hperm.
  split_and!.
  - done.
  - eexists. split; [by apply snapshot_wf|]. rewrite Hmem, Hmap. split_and!.
    + by apply targets_Permutation.
    + intros r (l & Hin & ->)%elem_of_targets.
      rewrite Hperm in Hin. by apply elem_of_valid_rules in Hin as [Hv _].
    + intros l Hin Hc. apply elem_of_targets. exists l. split; [|done].
      rewrite Hperm. by apply elem_of_valid_rules.
  - intros p. unfold getRules_in. rewrite Hmap, Hperm, elem_of_valid_rules. tauto.
  - intros R' Heq. rewrite Hmap.
    rewrite <- (buildRuleMap_valid_rules (Some R')). simpl. rewrite Heq.
    apply (buildRuleMap_valid_rules (Some R)).
  - intros k ps p. rewrite buildRuleMap_lookup.
    intros [-> _]%nonempty_Some [[Hv _] _]%elem_of_bucket. done.
Qed.

(** C5. [ClearRules] is [LoadRules] of the nil slice with the boolean result
    dropped, and [buildRuleMap] of a nil or an empty slice is the empty map.
    When [ClearRules] returns without error, under a handler that publishes
    on success as the default one does, the active index is empty and the
    next [GetRules] returns an empty slice, whatever rules were active
    before. *)
Theorem ClearRules_empties w order :
  publishes_on_success (ruleUpdateHandler w) →
  (ClearRules w).1 = None →
  ClearRules w = ((LoadRules None w).1.2, (LoadRules None w).2)
  ∧ (∀ st, buildRuleMap None st = (∅, st) ∧ buildRuleMap (Some []) st = (∅, st))
  ∧ ruleMap (state (ClearRules w).2) = ∅
  ∧ ∃ s st', GetRules_in order (state (ClearRules w).2) = Some (s, st')
             ∧ len s = 0
             ∧ slice_values (mem st') s = [].
Proof.
  intros Hpub Hnil.
  assert (ruleMap (state (ClearRules w).2) = ∅) as Hmap.
  { revert Hnil. unfold ClearRules, LoadRules. simpl.
    destruct (ruleUpdateHandler w onRuleUpdate ∅ (state w)) as [[e|] st2] eqn:Hrun;
      simpl; [done|].
    intros _. by apply (Hpub _ _ _ Hrun). }
  split_and!.
  - unfold ClearRules. by destruct (LoadRules None w) as [[ok err] w'].
  - done.
  - done.
  - unfold GetRules_in. rewrite Hmap, collect_empty. by eexists _, _.
Qed.

(** With the default handler [ClearRules] never returns an error. *)
Lemma ClearRules_default w :
  ruleUpdateHandler w = defaultRuleUpdateHandler → (ClearRules w).1 = None.
Proof.
  intros Hh. destruct (LoadRules_default None w Hh) as (Hres & _).
  unfold ClearRules. destruct (LoadRules None w) as [[ok err] w'].
  simpl in *. congruence.
Qed.

(** C9. With the default handler, a load in which every candidate fails
    validation (among them the nil and the empty list) still returns success
    and installs the empty index, so the rules active before are gone.  The
    result, the index, the memory and the following snapshot are those of
    [ClearRules]. *)
Theorem LoadRules_all_invalid w rules order :
  ruleUpdateHandler w = defaultRuleUpdateHandler →
  (∀ p, p ∈ elems rules → IsValidSystemRule (mem (state w)) p ≠ None) →
  (LoadRules rules w).1 = (true, None)
  ∧ ruleMap (state (LoadRules rules w).2) = ∅
  ∧ snapshot order (state (LoadRules rules w).2) = Some []
  ∧ (ClearRules w).1 = None
  ∧ ruleMap (state (ClearRules w).2) = ruleMap (state (LoadRules rules w).2)
  ∧ mem (state (ClearRules w).2) = mem (state (LoadRules rules w).2)
  ∧ brk (state (ClearRules w).2) = brk (state (LoadRules rules w).2)
  ∧ snapshot order (state (ClearRules w).2)
    = snapshot order (state (LoadRules rules w).2).
Proof.
  intros Hh Hinvalid.
  destruct (LoadRules_default rules w Hh) as (Hres & _ & Hmap & Hmem & Hbrk).
  destruct (LoadRules_default None w Hh) as (Hres0 & _ & Hmap0 & Hmem0 & Hbrk0).
  rewrite buildRuleMap_no_valid in Hmap by (by apply valid_rules_none).
  assert (ClearRules w = ((LoadRules None w).1.2, (LoadRules None w).2)) as ->.
  { unfold ClearRules. by destruct (LoadRules None w) as [[ok err] w']. }
  simpl in *. rewrite Hres0, Hmap0, Hmem0, Hbrk0.
  assert (∀ st, ruleMap st = ∅ → snapshot order st = Some []) as Hsnap.
  { intros st Hempty. rewrite snapshot_wf.
    - by rewrite Hempty, collect_empty.
    - intros k ps. by rewrite Hempty, lookup_empty. }
  split_and!; try done.
  - by apply Hsnap.
  - by rewrite !Hsnap.
Qed.

(** C10. With the default handler registered [LoadRules] returns
    [(true, nil)] for every input, be it nil, empty or a list holding nil or
    invalid rules: [onRuleUpdate] returns nil whatever map it is given, and
    the default handler returns what the callback returns, so the failing
    branch of [LoadRules] is never taken. *)
Theorem LoadRules_default_succeeds w rules :
  ruleUpdateHandler w = defaultRuleUpdateHandler →
  (LoadRules rules w).1 = (true, None)
  ∧ (∀ r st, (onRuleUpdate r st).1 = None)
  ∧ (∀ (cb : Installer) r st, defaultRuleUpdateHandler cb r st = cb r st)
  ∧ (∀ err, (LoadRules rules w).1 ≠ (false, err)).
Proof.
  intros Hh. destruct (LoadRules_default rules w Hh) as (Hres & _).
  split_and!; try done. intros err. by rewrite Hres.
Qed.


(** C8. With the default handler, loading the same list of rules twice in a
    row leaves the store as one load leaves it: the index, the memory and the
    allocation frontier agree, a snapshot taken with the same iteration order
    returns the same rules, and snapshots taken with any two iteration orders
    return the same rules up to order.  This holds for every list of
    allocated rules, so in particular for every list of valid ones. *)
Theorem LoadRules_twice w R order order' :
  ruleUpdateHandler w = defaultRuleUpdateHandler →
  allocated (state w) R →
  order' ≡ₚ order →
  ruleMap (state (LoadRules (Some R) (LoadRules (Some R) w).2).2)
  = ruleMap (state (LoadRules (Some R) w).2)
  ∧ mem (state (LoadRules (Some R) (LoadRules (Some R) w).2).2)
    = mem (state (LoadRules (Some R) w).2)
  ∧ brk (state (LoadRules (Some R) (LoadRules (Some R) w).2).2)
    = brk (state (LoadRules (Some R) w).2)
  ∧ ∃ vals vals',
      snapshot order (state (LoadRules (Some R) w).2) = Some vals
      ∧ snapshot order (state (LoadRules (Some R) (LoadRules (Some R) w).2).2)
        = Some vals
      ∧ snapshot order' (state (LoadRules (Some R) (LoadRules (Some R) w).2).2)
        = Some vals'
      ∧ vals' ≡ₚ vals.
Proof.
  intros Hh Halloc Horder.
  destruct (LoadRules_default (Some R) w Hh) as (_ & Hh1 & Hmap1 & Hmem1 & Hbrk1).
  pose proof (LoadRules_default_wf (Some R) w Hh Halloc) as Hwf1.
  assert (allocated (state (LoadRules (Some R) w).2) R) as Halloc1.
  { intros l Hl. rewrite Hbrk1. by apply Halloc. }
  destruct (LoadRules_default (Some R) _ Hh1) as (_ & _ & Hmap2 & Hmem2 & Hbrk2).
  pose proof (LoadRules_default_wf (Some R) _ Hh1 Halloc1) as Hwf2.
  assert (ruleMap (state (LoadRules (Some R) (LoadRules (Some R) w).2).2)
          = ruleMap (state (LoadRules (Some R) w).2)) as Hmap.
  { rewrite Hmap2, Hmap1. apply map_eq. intros k.
    rewrite !buildRuleMap_lookup. by rewrite Hmem1. }
  split_and!; [done..|].
  eexists _, _. rewrite !snapshot_wf by done. rewrite Hmap, Hmem2.
  split_and!; [done..|].
  apply targets_Permutation. by apply collect_Permutation.
Qed.

(** ** Copies and shared rules *)

(** C6. [GetRules] returns copies.  In a well-formed state, whatever is
    stored into the elements of the returned slice, the active index and the
    rule objects it points to stay as they were, and a following [GetRules]
    returns the rules the first call returned: the same sequence under the
    same iteration order, the same rules up to order under another one. *)
Theorem GetRules_returns_copies st order order' s st1 ws st2 :
  wf_state st →
  GetRules_in order st = Some (s, st1) →
  slice_stores s ws st1 = Some st2 →
  order' ≡ₚ order →
  ruleMap st2 = ruleMap st
  ∧ (∀ l, l < brk st → mem st2 l = mem st l)
  ∧ snapshot order st2 = Some (slice_values (mem st1) s)
  ∧ ∃ vals', snapshot order' st2 = Some vals'
             ∧ vals' ≡ₚ slice_values (mem st1) s.
Proof.
  intros Hwf Hget Hstores Horder.
  destruct (GetRules_in_wf order st Hwf) as (h' & Hget' & Hlow & Hvals).
  rewrite Hget in Hget'. injection Hget' as -> ->.
  apply slice_stores_frame in Hstores as (Hmap & Hbrk & _ & Hmem).
  simpl in Hmap, Hbrk, Hmem.
  assert (∀ l, l < brk st → mem st2 l = mem st l) as Hsame.
  { intros l Hl. rewrite Hmem by done. by apply Hlow. }
  assert (wf_state st2) as Hwf2.
  { intros k ps. rewrite Hmap. intros Hk. destruct (Hwf k ps Hk) as [Hnil Halloc].
    split; [done|]. intros l Hl. rewrite Hbrk. specialize (Halloc l Hl). lia. }
  assert (∀ o, targets (mem st2) (collect o (ruleMap st))
               = targets (mem st) (collect o (ruleMap st))) as Htargets.
  { intros o. apply targets_ext. intros l Hl. apply Hsame.
    by apply (wf_state_collect st o Hwf). }
  split_and!; [done..| |].
  - rewrite snapshot_wf by done. rewrite Hmap, Htargets.
    unfold slice_values. simpl. by rewrite Hvals.
  - eexists. rewrite snapshot_wf by done. split; [done|].
    rewrite Hmap, Htargets. unfold slice_values. simpl. rewrite Hvals.
    apply targets_Permutation. by apply collect_Permutation.
Qed.

(** ** A failing handler *)

(** C2, as the code has it.  When the handler returns an error, [LoadRules]
    returns [(false, that error)].  [LoadRules] itself never writes the
    active index, so the index after the call is the one the handler left
    behind: it is the index from before the call when the handler keeps the
    index on error, as a handler does that rejects the candidate map without
    invoking the installer callback. *)
Theorem LoadRules_handler_error w rules e st2 :
  ruleUpdateHandler w onRuleUpdate (buildRuleMap rules (state w)).1
                    (buildRuleMap rules (state w)).2 = (Some e, st2) →
  (LoadRules rules w).1 = (false, Some e)
  ∧ ruleMap (state (LoadRules rules w).2) = ruleMap st2
  ∧ (keeps_index_on_error (ruleUpdateHandler w) →
     ruleMap (state (LoadRules rules w).2) = ruleMap (state w)).
Proof.
  intros Hrun. unfold LoadRules.
  destruct (buildRuleMap_frame rules (state w)) as (_ & _ & Hmap).
  destruct (buildRuleMap rules (state w)) as [m st1]. simpl in *.
  rewrite Hrun. simpl. split_and!; [done..|].
  intros Hkeeps. rewrite <- Hmap. by eapply Hkeeps.
Qed.

(** ** The events of a load *)

Lemma candidate_event_step h m evs p :
  (buildRuleMap_step h (m, evs) p).2 = evs ++ [candidate_event h p].
Proof.
  unfold buildRuleMap_step, candidate_event. destruct p as [l|]; simpl; [|done].
  by destruct (checkRule (h l)).
Qed.

Lemma buildRuleMap_loop_events h rules :
  (buildRuleMap_loop h rules).2 = candidate_event h <$> rules.
Proof.
  induction rules as [|p rules IH] using rev_ind; [done|].
  rewrite buildRuleMap_loop_snoc, fmap_app.
  destruct (buildRuleMap_loop h rules) as [m evs]. simpl in IH.
  by rewrite candidate_event_step, IH.
Qed.

Lemma buildRuleMap_trace rules st :
  trace (buildRuleMap rules st).2
  = trace st ++ (candidate_event (mem st) <$> elems rules).
Proof.
  unfold buildRuleMap. destruct (elems rules) as [|p ps] eqn:Hel.
  { simpl. by rewrite app_nil_r. }
  simpl. pose proof (buildRuleMap_loop_events (mem st) (p :: ps)) as Hev.
  destruct (buildRuleMap_loop (mem st) (p :: ps)) as [m evs]. simpl in *.
  by rewrite Hev.
Qed.

Lemma candidate_event_valid h p :
  IsValidSystemRule h p = None →
  ∃ l, p = Some l
       ∧ candidate_event h p = RegisterRuleCheckSlotForResource (ResourceName (h l)).
Proof.
  intros (l & -> & Hc)%IsValidSystemRule_None. exists l. split; [done|].
  unfold candidate_event. by rewrite Hc.
Qed.

Lemma candidate_event_invalid h p :
  IsValidSystemRule h p ≠ None →
  ∃ err, IsValidSystemRule h p = Some err
         ∧ candidate_event h p = LogWarnInvalidRule p err.
Proof.
  intros Hinv. destruct p as [l|]; simpl in *.
  - unfold candidate_event. destruct (checkRule (h l)) as [err|]; [|done].
    by exists err.
  - by eexists.
Qed.

Lemma registered_candidates h rules :
  omap registered_resource (candidate_event h <$> rules)
  = ResourceName <$> targets h (valid_rules h rules).
Proof.
  induction rules as [|p rules IH]; [done|].
  unfold valid_rules, targets in *. rewrite fmap_cons, filter_cons.
  destruct (decide (IsValidSystemRule h p = None)) as [Hv|Hv].
  - destruct (candidate_event_valid h p Hv) as (l & -> & Hev).
    cbn [omap list_omap]. rewrite Hev. cbn [registered_resource fmap option_fmap option_map].
    rewrite fmap_cons. f_equal. apply IH.
  - destruct (candidate_event_invalid h p Hv) as (err & _ & Hev).
    cbn [omap list_omap]. rewrite Hev. apply IH.
Qed.

Lemma warned_candidates h rules :
  omap warned_rule (candidate_event h <$> rules) = invalid_rules h rules.
Proof.
  induction rules as [|p rules IH]; [done|].
  unfold invalid_rules in *. rewrite fmap_cons, filter_cons.
  destruct (decide (IsValidSystemRule h p ≠ None)) as [Hv|Hv].
  - destruct (candidate_event_invalid h p Hv) as (err & _ & Hev).
    cbn [omap list_omap]. rewrite Hev. cbn [warned_rule]. f_equal. apply IH.
  - assert (IsValidSystemRule h p = None) as Hvalid.
    { by destruct (IsValidSystemRule h p); [exfalso; apply Hv|]. }
    destruct (candidate_event_valid h p Hvalid) as (l & -> & Hev).
    cbn [omap list_omap]. rewrite Hev. apply IH.
Qed.

(** X1. [buildRuleMap] emits one event for each candidate, in the order of
    the list: the slot registration of the rule's resource for an accepted
    candidate, a warning carrying the validator's error for a rejected one.
    So the registered resources are those of the accepted candidates, each
    as often as the candidate occurs, and the warned rules are the rejected
    candidates.  Nothing else of the state changes. *)
Theorem buildRuleMap_events rules st :
  trace (buildRuleMap rules st).2
  = trace st ++ (candidate_event (mem st) <$> elems rules)
  ∧ omap registered_resource (candidate_event (mem st) <$> elems rules)
    = ResourceName <$> targets (mem st) (valid_rules (mem st) (elems rules))
  ∧ omap warned_rule (candidate_event (mem st) <$> elems rules)
    = invalid_rules (mem st) (elems rules)
  ∧ mem (buildRuleMap rules st).2 = mem st
  ∧ brk (buildRuleMap rules st).2 = brk st
  ∧ ruleMap (buildRuleMap rules st).2 = ruleMap st.
Proof.
  destruct (buildRuleMap_frame rules st) as (Hmem & Hbrk & Hmap).
  split_and!; try done.
  - apply buildRuleMap_trace.
  - apply registered_candidates.
  - apply warned_candidates.
Qed.

Lemma buildRuleMap_empty_iff rules st :
  (buildRuleMap rules st).1 = ∅ ↔ valid_rules (mem st) (elems rules) = [].
Proof.
  split; [|apply buildRuleMap_no_valid].
  intros Hempty. apply Permutation_nil_r.
  rewrite <- (flat_buildRuleMap_loop (mem st) (elems rules)).
  rewrite <- buildRuleMap_index, Hempty. by rewrite map_to_list_empty.
Qed.

(** X2. With the default handler the trace of a load is: the events of the
    candidates, the time statistic, and then the line that rules were
    loaded, or, when no candidate passed validation, that rules were
    cleared. *)
Theorem LoadRules_default_trace w rules :
  ruleUpdateHandler w = defaultRuleUpdateHandler →
  trace (state (LoadRules rules w).2)
  = trace (state w)
    ++ (candidate_event (mem (state w)) <$> elems rules)
    ++ [LogDebugTimeCost;
        if decide (valid_rules (mem (state w)) (elems rules) = [])
        then LogInfoRulesCleared
        else LogInfoRulesLoaded (buildRuleMap rules (state w)).1].
Proof.
  intros Hh. unfold LoadRules. rewrite Hh.
  pose proof (buildRuleMap_trace rules (state w)) as Htr.
  pose proof (buildRuleMap_empty_iff rules (state w)) as Hempty.
  destruct (buildRuleMap rules (state w)) as [m st1]. simpl in *.
  rewrite Htr, <- (assoc_L (++)). do 3 f_equal.
  destruct (decide (0 < size m)) as [Hpos|Hzero];
    destruct (decide (valid_rules (mem (state w)) (elems rules) = [])) as [Hv|Hv];
    try done.
  - apply Hempty in Hv. subst m. rewrite map_size_empty in Hpos. lia.
  - exfalso. apply Hv, Hempty. apply map_size_empty_iff. lia.
Qed.

(** X3. When the handler returns an error, [LoadRules] adds one line to the
    trace the handler left: the failure with that error and with the
    candidate slice as the caller passed it.  It changes nothing else of the
    state the handler left.  The slot registrations of the accepted
    candidates precede the handler's run, so a handler that returns the
    state as it got it leaves them in the trace of the failed load. *)
Theorem LoadRules_error_trace w rules e st2 :
  ruleUpdateHandler w onRuleUpdate (buildRuleMap rules (state w)).1
                    (buildRuleMap rules (state w)).2 = (Some e, st2) →
  trace (state (LoadRules rules w).2) = trace st2 ++ [LogErrorLoadFailed e rules]
  ∧ mem (state (LoadRules rules w).2) = mem st2
  ∧ brk (state (LoadRules rules w).2) = brk st2
  ∧ ruleMap (state (LoadRules rules w).2) = ruleMap st2
  ∧ (st2 = (buildRuleMap rules (state w)).2 →
     trace (state (LoadRules rules w).2)
     = trace (state w)
       ++ (candidate_event (mem (state w)) <$> elems rules)
       ++ [LogErrorLoadFailed e rules]).
Proof.
  intros Hrun. unfold LoadRules.
  pose proof (buildRuleMap_trace rules (state w)) as Htr.
  destruct (buildRuleMap rules (state w)) as [m st1]. simpl in *.
  rewrite Hrun. simpl. split_and!; try done.
  intros ->. by rewrite Htr, <- (assoc_L (++)).
Qed.

(** ** The shape of the built index *)

Lemma default_nonempty {A} (l : list A) : default [] (nonempty l) = l.
Proof. by destruct l. Qed.

(** X4. Every key of the map [buildRuleMap] builds is a metric type below
    [MetricTypeSize], so the map never has more than [MetricTypeSize]
    buckets, nor more buckets than candidates; no bucket is empty and none
    holds a nil pointer. *)
Theorem buildRuleMap_keys_in_range rules st :
  (∀ k ps, (buildRuleMap rules st).1 !! k = Some ps →
     (k < MetricTypeSize)%N ∧ ps ≠ [] ∧ None ∉ ps)
  ∧ size (buildRuleMap rules st).1 ≤ N.to_nat MetricTypeSize
  ∧ size (buildRuleMap rules st).1 ≤ length (elems rules).
Proof.
  assert (∀ k ps, (buildRuleMap rules st).1 !! k = Some ps →
            (k < MetricTypeSize)%N ∧ ps ≠ [] ∧ None ∉ ps) as Hkeys.
  { intros k ps. rewrite buildRuleMap_lookup. intros [-> Hne]%nonempty_Some.
    split_and!; [|done|].
    - destruct (bucket (mem st) k (elems rules)) as [|p ps] eqn:Hb; [done|].
      assert (p ∈ bucket (mem st) k (elems rules)) as Hin by (rewrite Hb; left).
      apply elem_of_bucket in Hin as [Hin _].
      apply in_bucket_inv in Hin as (l & _ & Hc & <-).
      by apply checkRule_None in Hc as (_ & ? & _).
    - intros [Hin _]%elem_of_bucket. by apply in_bucket_inv in Hin as (l & ? & _). }
  split_and!; [done| |].
  - rewrite <- (size_dom (D := gset N)).
    transitivity (size (list_to_set (C := gset N)
                          (N.of_nat <$> seq 0 (N.to_nat MetricTypeSize)))).
    + apply subseteq_size. intros k [ps Hk]%elem_of_dom.
      apply Hkeys in Hk as (Hlt & _). apply elem_of_list_to_set.
      apply list_elem_of_fmap. exists (N.to_nat k). split; [lia|].
      apply elem_of_seq. lia.
    + rewrite size_list_to_set.
      * by rewrite length_fmap, length_seq.
      * apply NoDup_fmap; [|apply NoDup_seq]. intros x y Hxy. lia.
  - rewrite <- length_map_to_list.
    transitivity (length (map_to_list (buildRuleMap rules st).1 ≫= snd)).
    + assert (∀ kv, kv ∈ map_to_list (buildRuleMap rules st).1 → kv.2 ≠ []) as Hne.
      { intros [k ps] Hin%elem_of_map_to_list. by apply Hkeys in Hin as (_ & ? & _). }
      induction (map_to_list (buildRuleMap rules st).1) as [|[k ps] l IH]; [done|].
      rewrite bind_cons, length_app. simpl.
      assert (ps ≠ []) by (apply (Hne (k, ps)); left).
      assert (length l ≤ length (l ≫= snd)).
      { apply IH. intros kv Hkv. apply Hne. by right. }
      destruct ps; [done|]. simpl. lia.
    + rewrite buildRuleMap_index, flat_buildRuleMap_loop.
      unfold valid_rules. apply length_filter.
Qed.

(** X5. The index of a concatenation of candidate lists is, bucket by
    bucket, the bucket of the first list followed by the bucket of the
    second. *)
Theorem buildRuleMap_app R1 R2 st k :
  (buildRuleMap (Some (R1 ++ R2)) st).1 !! k
  = nonempty (default [] ((buildRuleMap (Some R1) st).1 !! k)
              ++ default [] ((buildRuleMap (Some R2) st).1 !! k)).
Proof.
  rewrite !buildRuleMap_lookup, !default_nonempty. simpl.
  unfold bucket. by rewrite list.filter_app.
Qed.

(** ** Replacing and sharing *)

Lemma snapshot_ext order st st' :
  mem st = mem st' → brk st = brk st' → ruleMap st = ruleMap st' →
  snapshot order st = snapshot order st'.
Proof.
  intros Hmem Hbrk Hmap. unfold snapshot, GetRules_in.
  rewrite Hmem, Hbrk, Hmap.
  by destruct (copy_rules (collect order (ruleMap st')) (brk st') (mem st')).
Qed.

(** X6. [LoadRules] replaces: with the default handler, after loading [R1]
    and then [R2] the index, the memory and every snapshot are those of
    loading [R2] alone, whatever [R1] held. *)
Theorem LoadRules_replaces w R1 R2 order :
  ruleUpdateHandler w = defaultRuleUpdateHandler →
  (LoadRules R2 (LoadRules R1 w).2).1 = (true, None)
  ∧ ruleMap (state (LoadRules R2 (LoadRules R1 w).2).2)
    = ruleMap (state (LoadRules R2 w).2)
  ∧ ruleMap (state (LoadRules R2 (LoadRules R1 w).2).2)
    = (buildRuleMap R2 (state w)).1
  ∧ mem (state (LoadRules R2 (LoadRules R1 w).2).2) = mem (state w)
  ∧ snapshot order (state (LoadRules R2 (LoadRules R1 w).2).2)
    = snapshot order (state (LoadRules R2 w).2).
Proof.
  intros Hh.
  destruct (LoadRules_default R1 w Hh) as (_ & Hh1 & Hmap1 & Hmem1 & Hbrk1).
  destruct (LoadRules_default R2 _ Hh1) as (Hres & _ & Hmap12 & Hmem12 & Hbrk12).
  destruct (LoadRules_default R2 w Hh) as (_ & _ & Hmap2 & Hmem2 & Hbrk2).
  assert ((buildRuleMap R2 (state (LoadRules R1 w).2)).1
          = (buildRuleMap R2 (state w)).1) as Hsame.
  { apply map_eq. intros k. rewrite !buildRuleMap_lookup. by rewrite Hmem1. }
  split_and!.
  - done.
  - by rewrite Hmap12, Hmap2.
  - by rewrite Hmap12.
  - by rewrite Hmem12.
  - apply snapshot_ext; congruence.
Qed.

Lemma wf_state_store_rule l r st : wf_state st → wf_state (store_rule l r st).
Proof. intros Hwf k ps Hk. apply (Hwf k ps Hk). Qed.

(** X7. [LoadRules] keeps the caller's pointers and validates only while
    loading.  With the default handler, after a rule object that was loaded
    is overwritten through the caller's pointer, [GetRules] returns the new
    value in place of the old one, whether or not the new value would pass
    validation. *)
Theorem LoadRules_keeps_pointers w R order l r :
  ruleUpdateHandler w = defaultRuleUpdateHandler →
  allocated (state w) R →
  Some l ∈ R →
  IsValidSystemRule (mem (state w)) (Some l) = None →
  iteration_order (ruleMap (state (LoadRules (Some R) w).2)) order →
  ∃ vals,
    snapshot order (store_rule l r (state (LoadRules (Some R) w).2)) = Some vals
    ∧ r ∈ vals
    ∧ vals ≡ₚ targets (<[l := r]> (mem (state w)))
                      (valid_rules (mem (state w)) R).
Proof.
  intros Hh Halloc Hl Hvalid Horder.
  destruct (LoadRules_default (Some R) w Hh) as (_ & _ & Hmap & Hmem & Hbrk).
  pose proof (LoadRules_default_wf (Some R) w Hh Halloc) as Hwf.
  rewrite Hmap in Horder.
  pose proof (collect_buildRuleMap _ _ _ Horder) as Hperm. simpl in Hperm.
  eexists. rewrite snapshot_wf by (by apply wf_state_store_rule).
  split; [done|]. simpl. rewrite Hmap, Hmem.
  assert (targets (<[l:=r]> (mem (state w)))
            (collect order (buildRuleMap (Some R) (state w)).1)
          ≡ₚ targets (<[l:=r]> (mem (state w)))
               (valid_rules (mem (state w)) R)) as Hres.
  { by apply targets_Permutation. }
  split; [|done]. rewrite Hres. apply elem_of_targets. exists l.
  split; [by apply elem_of_valid_rules | by rewrite fn_lookup_insert].
Qed.

(** X8. [getRules] returns the stored pointers themselves.  In a well-formed
    state a store through one of them leaves the pointers [getRules] returns
    as they are and shows in the next [GetRules], which returns the rules
    these pointers then refer to. *)
Theorem getRules_shares st order l r :
  wf_state st →
  Some l ∈ getRules_in order st →
  getRules_in order (store_rule l r st) = getRules_in order st
  ∧ snapshot order st = Some (targets (mem st) (getRules_in order st))
  ∧ snapshot order (store_rule l r st)
    = Some (targets (<[l := r]> (mem st)) (getRules_in order st))
  ∧ r ∈ targets (<[l := r]> (mem st)) (getRules_in order st).
Proof.
  intros Hwf Hl. split_and!.
  - done.
  - by apply snapshot_wf.
  - by rewrite snapshot_wf by (by apply wf_state_store_rule).
  - apply elem_of_targets. exists l. split; [done | by rewrite fn_lookup_insert].
Qed.

(** ** Reading *)

(** X9. In a well-formed state [GetRules] only reads the store: it returns a
    slice with one element for each stored pointer, holding the rules the
    pointers of [getRules] refer to, and it leaves the index, the trace and
    every cell allocated before the call as they were, so the state is
    well-formed again. *)
Theorem GetRules_only_reads st order :
  wf_state st →
  ∃ s st',
    GetRules_in order st = Some (s, st')
    ∧ len s = length (getRules_in order st)
    ∧ slice_values (mem st') s = targets (mem st) (getRules_in order st)
    ∧ ruleMap st' = ruleMap st
    ∧ trace st' = trace st
    ∧ (∀ l, l < brk st → mem st' l = mem st l)
    ∧ getRules_in order st' = getRules_in order st
    ∧ wf_state st'.
Proof.
  intros Hwf. destruct (GetRules_in_wf order st Hwf) as (h' & Hget & Hlow & Hvals).
  eexists _, _. split; [exact Hget|]. simpl. split_and!; try done.
  intros k ps Hk. destruct (Hwf k ps Hk) as [Hnil Halloc]. split; [done|].
  intros l Hl. specialize (Halloc l Hl). simpl. lia.
Qed.

Lemma copy_rules_None rules dst h :
  copy_rules rules dst h = None ↔ None ∈ rules.
Proof.
  revert dst h. induction rules as [|[l|] rules IH]; intros dst h; simpl.
  - split; [done|]. by intros ?%elem_of_nil.
  - rewrite IH. split; [by right|]. intros [?|?]%elem_of_cons; done.
  - split; [by left | done].
Qed.

(** X10. [GetRules] fails, by dereferencing nil, exactly when a bucket it
    iterates over holds a nil pointer; [getRules] returns that pointer. *)
Theorem GetRules_fails_iff_nil st order :
  GetRules_in order st = None ↔ None ∈ getRules_in order st.
Proof.
  unfold GetRules_in, getRules_in.
  rewrite <- (copy_rules_None _ (brk st) (mem st)).
  destruct (copy_rules (collect order (ruleMap st)) (brk st) (mem st));
    split; done.
Qed.

(** ** Registering a handler *)

(** X11. [RegisterRuleUpdateHandler] changes the handler and nothing of the
    state.  The next load runs the new handler alone: its outcome does not
    depend on the handler registered before, it succeeds exactly when the new
    handler returns nil on the built map, and registering the default
    handler makes the load succeed and install the built map. *)
Theorem RegisterRuleUpdateHandler_replaces handler w rules :
  state (RegisterRuleUpdateHandler handler w) = state w
  ∧ (∀ w', state w' = state w →
       LoadRules rules (RegisterRuleUpdateHandler handler w')
       = LoadRules rules (RegisterRuleUpdateHandler handler w))
  ∧ ((LoadRules rules (RegisterRuleUpdateHandler handler w)).1 = (true, None) ↔
       (handler onRuleUpdate (buildRuleMap rules (state w)).1
                (buildRuleMap rules (state w)).2).1 = None)
  ∧ (∀ e, (LoadRules rules (RegisterRuleUpdateHandler handler w)).1
          = (false, Some e) ↔
          (handler onRuleUpdate (buildRuleMap rules (state w)).1
                   (buildRuleMap rules (state w)).2).1 = Some e)
  ∧ (LoadRules rules (RegisterRuleUpdateHandler defaultRuleUpdateHandler w)).1
    = (true, None)
  ∧ ruleMap (state (LoadRules rules
                      (RegisterRuleUpdateHandler defaultRuleUpdateHandler w)).2)
    = (buildRuleMap rules (state w)).1.
Proof.
  split_and!.
  - done.
  - intros w' Hst. unfold LoadRules, RegisterRuleUpdateHandler. simpl.
    by rewrite Hst.
  - unfold LoadRules, RegisterRuleUpdateHandler. simpl.
    destruct (buildRuleMap rules (state w)) as [m st1]. simpl.
    by destruct (handler onRuleUpdate m st1) as [[e|] st2].
  - intros e. unfold LoadRules, RegisterRuleUpdateHandler. simpl.
    destruct (buildRuleMap rules (state w)) as [m st1]. simpl.
    destruct (handler onRuleUpdate m st1) as [[e'|] st2]; simpl; split; congruence.
  - by apply LoadRules_default.
  - by destruct (LoadRules_default rules
                   (RegisterRuleUpdateHandler defaultRuleUpdateHandler w) eq_refl)
      as (_ & _ & ? & _).
Qed.

(** ** The errors of the validator *)

(** X12. [IsValidSystemRule] reports the first check that fails, in the
    order nil, negative threshold, metric type, CPU usage: each of its four
    errors is returned exactly in the case below, and it returns no other
    error. *)
Theorem IsValidSystemRule_errors h p :
  (IsValidSystemRule h p = Some errNilRule ↔ p = None)
  ∧ (IsValidSystemRule h p = Some errNegativeThreshold ↔
       ∃ l, p = Some l ∧ F64.lt (TriggerCount (h l)) F64.zero = true)
  ∧ (IsValidSystemRule h p = Some errInvalidMetricType ↔
       ∃ l, p = Some l
            ∧ F64.lt (TriggerCount (h l)) F64.zero = false
            ∧ (MetricTypeSize ≤ MetricType (h l))%N)
  ∧ (IsValidSystemRule h p = Some errInvalidCpuUsage ↔
       ∃ l, p = Some l
            ∧ F64.lt (TriggerCount (h l)) F64.zero = false
            ∧ (MetricType (h l) < MetricTypeSize)%N
            ∧ MetricType (h l) = CpuUsage
            ∧ F64.gt (TriggerCount (h l)) F64.one = true)
  ∧ (∀ e, IsValidSystemRule h p = Some e →
       e ∈ [errNilRule; errNegativeThreshold; errInvalidMetricType;
            errInvalidCpuUsage]).
Proof.
  unfold errNilRule, errNegativeThreshold, errInvalidMetricType,
    errInvalidCpuUsage.
  destruct p as [l|]; simpl.
  - unfold checkRule.
    destruct (F64.lt (TriggerCount (h l)) F64.zero) eqn:Hlt;
      [|destruct (N.leb_spec MetricTypeSize (MetricType (h l))) as [Hge|Hin];
        [|destruct (N.eqb_spec (MetricType (h l)) CpuUsage) as [Heq|Hne];
          [destruct (F64.gt (TriggerCount (h l)) F64.one) eqn:Hgt|]]];
      simpl;
      (refine (conj _ (conj _ (conj _ (conj _ _))));
      [ split; intros Herr; congruence
      | split;
        [ intros Herr; first [congruence | exists l; split_and!; first [done | lia]]
        | intros (l' & Hl' & Hrest); simplify_eq;
          first [reflexivity | exfalso; intuition (first [congruence | lia])] ] ..
      | intros e He; first [discriminate He | injection He as <-];
        repeat first [by left | right] ]).
  - refine (conj _ (conj _ (conj _ (conj _ _))));
      [ split; [ first [done | congruence] | first [done | by intros (? & ? & _)] ] ..
      | intros e He; injection He as <-; by left ].
Qed.

(** X13. A rule whose threshold is NaN passes validation for every metric
    type below [MetricTypeSize], the CPU usage included, and [buildRuleMap]
    stores it in the bucket of its metric type. *)
Theorem IsValidSystemRule_accepts_nan rules st l :
  F64.is_nan (TriggerCount (mem st l)) = true →
  (MetricType (mem st l) < MetricTypeSize)%N →
  Some l ∈ elems rules →
  IsValidSystemRule (mem st) (Some l) = None
  ∧ ∃ ps, (buildRuleMap rules st).1 !! MetricType (mem st l) = Some ps
          ∧ Some l ∈ ps.
Proof.
  intros Hnan Hmt Hin.
  assert (checkRule (mem st l) = None) as Hc.
  { apply checkRule_None.
    destruct (F64_nan_unordered _ F64.zero Hnan) as [Hlt _].
    destruct (F64_nan_unordered _ F64.one Hnan) as [_ Hgt]. done. }
  split; [done|].
  assert (Some l ∈ bucket (mem st) (MetricType (mem st l)) (elems rules)) as Hb.
  { apply elem_of_bucket. split; [by apply in_bucket_metric | done]. }
  eexists. split; [|exact Hb].
  rewrite buildRuleMap_lookup. apply nonempty_Some. split; [done|].
  intros Hnil. rewrite Hnil in Hb. by apply elem_of_nil in Hb.
Qed.

(** ** Clearing under a failing handler *)

(** X14. [ClearRules] hands the empty map to the handler, on the state as it
    is.  When the handler returns an error, [ClearRules] returns that error,
    logs the failed load with the nil candidate slice, and the index is the
    one the handler left: under a handler that keeps the index on error no
    rule is cleared. *)
Theorem ClearRules_error w e st2 :
  ruleUpdateHandler w onRuleUpdate ∅ (state w) = (Some e, st2) →
  (ClearRules w).1 = Some e
  ∧ ruleMap (state (ClearRules w).2) = ruleMap st2
  ∧ trace (state (ClearRules w).2) = trace st2 ++ [LogErrorLoadFailed e None]
  ∧ (keeps_index_on_error (ruleUpdateHandler w) →
     ruleMap (state (ClearRules w).2) = ruleMap (state w)).
Proof.
  intros Hrun. unfold ClearRules, LoadRules. simpl. rewrite Hrun. simpl.
  split_and!; try done. intros Hkeeps. by eapply Hkeeps.
Qed.

End Properties.

(** ** The properties on the concrete package *)

Ltac elem_cases H :=
  repeat (apply elem_of_cons in H as [H|H]; [subst|]);
  try (by apply elem_of_nil in H).

Lemma exampleRules_allocated st rules :
  brk st = 4 → rules ⊆ exampleRules → allocated st rules.
Proof.
  intros Hbrk Hsub l Hl. apply Hsub in Hl. rewrite Hbrk.
  unfold exampleRules in Hl. elem_cases Hl; simplify_eq; lia.
Defined.

Lemma exampleValid_subseteq : exampleValid ⊆ exampleRules.
Proof.
  intros p Hp. unfold exampleValid in Hp. unfold exampleRules.
  elem_cases Hp; repeat first [by left | right].
Defined.

Lemma IsValidSystemRule_iff_witness :
  (@CpuUsage exampleDecls < @MetricTypeSize exampleDecls)%N
  ∧ IsValidSystemRule (decls := exampleDecls) exampleMem (Some 3) = None.
Proof.
  assert (H : (@CpuUsage exampleDecls < @MetricTypeSize exampleDecls)%N)
    by (simpl; lia).
  split; [exact H|].
  exact (proj1 (proj2 (IsValidSystemRule_iff (decls := exampleDecls) H))
           exampleMem 3 1%Z eq_refl).
Defined.

Lemma LoadRules_GetRules_valid_witness :
  ruleUpdateHandler examplePackage = defaultRuleUpdateHandler
  ∧ (∀ p, p ∈ exampleValid →
       IsValidSystemRule (decls := exampleDecls) (mem (state examplePackage)) p = None)
  ∧ allocated (state examplePackage) exampleValid
  ∧ iteration_order
      (ruleMap (state (LoadRules (decls := exampleDecls)
                         (Some exampleValid) examplePackage).2)) [0; 4]%N
  ∧ ∃ s st',
      GetRules_in [0; 4]%N
        (state (LoadRules (decls := exampleDecls)
                  (Some exampleValid) examplePackage).2) = Some (s, st')
      ∧ slice_values (mem st') s ≡ₚ targets (mem (state examplePackage)) exampleValid.
Proof.
  assert (H1 : ruleUpdateHandler examplePackage = defaultRuleUpdateHandler)
    by reflexivity.
  assert (H2 : ∀ p, p ∈ exampleValid →
    IsValidSystemRule (decls := exampleDecls) (mem (state examplePackage)) p = None).
  { intros p Hp. unfold exampleValid in Hp. elem_cases Hp; reflexivity. }
  assert (H3 : allocated (state examplePackage) exampleValid).
  { apply exampleRules_allocated; [reflexivity | apply exampleValid_subseteq]. }
  assert (H4 : iteration_order
    (ruleMap (state (LoadRules (decls := exampleDecls)
                       (Some exampleValid) examplePackage).2)) [0; 4]%N).
  { unfold iteration_order. vm_compute. apply perm_swap. }
  split_and!; [exact H1 | exact H2 | exact H3 | exact H4 |].
  destruct (LoadRules_GetRules_valid (decls := exampleDecls)
              examplePackage exampleValid [0; 4]%N H1 H2 H3 H4)
    as (s & st' & Hget & Hperm & _).
  by exists s, st'.
Defined.

Lemma LoadRules_drops_invalid_witness :
  ruleUpdateHandler examplePackage = defaultRuleUpdateHandler
  ∧ allocated (state examplePackage) exampleRules
  ∧ iteration_order (ruleMap (state loadedPackage)) [4; 0]%N
  ∧ (LoadRules (decls := exampleDecls) (Some exampleRules) examplePackage).1
    = (true, None)
  ∧ ∀ p, p ∈ getRules_in [4; 0]%N (state loadedPackage) ↔
         p ∈ exampleRules
         ∧ IsValidSystemRule (decls := exampleDecls) exampleMem p = None.
Proof.
  assert (H1 : ruleUpdateHandler examplePackage = defaultRuleUpdateHandler)
    by reflexivity.
  assert (H2 : allocated (state examplePackage) exampleRules)
    by (by apply exampleRules_allocated).
  assert (H3 : iteration_order (ruleMap (state loadedPackage)) [4; 0]%N).
  { unfold iteration_order. vm_compute. reflexivity. }
  split_and!; [exact H1 | exact H2 | exact H3 | |].
  - exact (proj1 (LoadRules_drops_invalid (decls := exampleDecls)
                    examplePackage exampleRules [4; 0]%N H1 H2 H3)).
  - exact (proj1 (proj2 (proj2 (LoadRules_drops_invalid (decls := exampleDecls)
                    examplePackage exampleRules [4; 0]%N H1 H2 H3)))).
Defined.

Lemma ClearRules_empties_witness :
  publishes_on_success (ruleUpdateHandler loadedPackage)
  ∧ (ClearRules (decls := exampleDecls) loadedPackage).1 = None
  ∧ ruleMap (state loadedPackage) ≠ ∅
  ∧ ruleMap (state (ClearRules (decls := exampleDecls) loadedPackage).2) = ∅
  ∧ ∃ s st',
      GetRules_in [] (state (ClearRules (decls := exampleDecls) loadedPackage).2)
      = Some (s, st')
      ∧ len s = 0
      ∧ slice_values (mem st') s = [].
Proof.
  assert (H1 : publishes_on_success (ruleUpdateHandler loadedPackage))
    by exact defaultRuleUpdateHandler_publishes.
  assert (H2 : (ClearRules (decls := exampleDecls) loadedPackage).1 = None)
    by reflexivity.
  split_and!; [exact H1 | exact H2 | | |].
  - intros Heq. apply (f_equal (λ m : RuleMap, m !! 0%N)) in Heq.
    vm_compute in Heq. discriminate.
  - exact (proj1 (proj2 (proj2 (ClearRules_empties (decls := exampleDecls)
                    loadedPackage [] H1 H2)))).
  - exact (proj2 (proj2 (proj2 (ClearRules_empties (decls := exampleDecls)
                    loadedPackage [] H1 H2)))).
Defined.

Lemma LoadRules_all_invalid_witness :
  ruleUpdateHandler loadedPackage = defaultRuleUpdateHandler
  ∧ (∀ p, p ∈ elems (Some exampleInvalid) →
       IsValidSystemRule (decls := exampleDecls) (mem (state loadedPackage)) p ≠ None)
  ∧ ruleMap (state loadedPackage) ≠ ∅
  ∧ (LoadRules (decls := exampleDecls) (Some exampleInvalid) loadedPackage).1
    = (true, None)
  ∧ ruleMap (state (LoadRules (decls := exampleDecls)
                      (Some exampleInvalid) loadedPackage).2) = ∅.
Proof.
  assert (H1 : ruleUpdateHandler loadedPackage = defaultRuleUpdateHandler)
    by reflexivity.
  assert (H2 : ∀ p, p ∈ elems (Some exampleInvalid) →
    IsValidSystemRule (decls := exampleDecls) (mem (state loadedPackage)) p ≠ None).
  { intros p Hp. simpl in Hp. unfold exampleInvalid in Hp.
    elem_cases Hp; vm_compute; discriminate. }
  split_and!; [exact H1 | exact H2 | | |].
  - intros Heq. apply (f_equal (λ m : RuleMap, m !! 0%N)) in Heq.
    vm_compute in Heq. discriminate.
  - exact (proj1 (LoadRules_all_invalid (decls := exampleDecls)
                    loadedPackage (Some exampleInvalid) [] H1 H2)).
  - exact (proj1 (proj2 (LoadRules_all_invalid (decls := exampleDecls)
                    loadedPackage (Some exampleInvalid) [] H1 H2))).
Defined.

Lemma LoadRules_default_succeeds_witness :
  ruleUpdateHandler examplePackage = defaultRuleUpdateHandler
  ∧ (LoadRules (decls := exampleDecls) (Some exampleRules) examplePackage).1
    = (true, None).
Proof.
  assert (H1 : ruleUpdateHandler examplePackage = defaultRuleUpdateHandler)
    by reflexivity.
  split; [exact H1|].
  exact (proj1 (LoadRules_default_succeeds (decls := exampleDecls)
                  examplePackage (Some exampleRules) H1)).
Defined.

Lemma LoadRules_twice_witness :
  ruleUpdateHandler examplePackage = defaultRuleUpdateHandler
  ∧ allocated (state examplePackage) exampleValid
  ∧ [0; 4]%N ≡ₚ [4; 0]%N
  ∧ ruleMap (state (LoadRules (decls := exampleDecls) (Some exampleValid)
              (LoadRules (decls := exampleDecls) (Some exampleValid)
                 examplePackage).2).2)
    = ruleMap (state (LoadRules (decls := exampleDecls) (Some exampleValid)
                        examplePackage).2).
Proof.
  assert (H1 : ruleUpdateHandler examplePackage = defaultRuleUpdateHandler)
    by reflexivity.
  assert (H2 : allocated (state examplePackage) exampleValid).
  { apply exampleRules_allocated; [reflexivity | apply exampleValid_subseteq]. }
  assert (H3 : [0; 4]%N ≡ₚ [4; 0]%N) by apply perm_swap.
  split_and!; [exact H1 | exact H2 | exact H3 |].
  exact (proj1 (LoadRules_twice (decls := exampleDecls)
                  examplePackage exampleValid [4; 0]%N [0; 4]%N H1 H2 H3)).
Defined.

Lemma loadedPackage_wf : wf_state (state loadedPackage).
Proof.
  apply (LoadRules_default_wf (decls := exampleDecls)); [reflexivity|].
  by apply exampleRules_allocated.
Defined.

Lemma GetRules_returns_copies_witness :
  wf_state (state loadedPackage)
  ∧ GetRules_in [4; 0]%N (state loadedPackage) = Some (exampleCopy.1, exampleCopy.2)
  ∧ slice_stores exampleCopy.1 exampleStores exampleCopy.2 = Some mutatedState
  ∧ [0; 4]%N ≡ₚ [4; 0]%N
  ∧ ruleMap mutatedState = ruleMap (state loadedPackage)
  ∧ snapshot [4; 0]%N mutatedState
    = Some (slice_values (mem exampleCopy.2) exampleCopy.1).
Proof.
  assert (H2 : GetRules_in [4; 0]%N (state loadedPackage)
               = Some (exampleCopy.1, exampleCopy.2)) by reflexivity.
  assert (H3 : slice_stores exampleCopy.1 exampleStores exampleCopy.2
               = Some mutatedState) by reflexivity.
  assert (H4 : [0; 4]%N ≡ₚ [4; 0]%N) by apply perm_swap.
  split_and!; [exact loadedPackage_wf | exact H2 | exact H3 | exact H4 | |].
  - exact (proj1 (GetRules_returns_copies (state loadedPackage) [4; 0]%N [0; 4]%N
                    _ _ exampleStores mutatedState loadedPackage_wf H2 H3 H4)).
  - exact (proj1 (proj2 (proj2 (GetRules_returns_copies (state loadedPackage)
                    [4; 0]%N [0; 4]%N _ _ exampleStores mutatedState
                    loadedPackage_wf H2 H3 H4)))).
Defined.

(** In contrast, [getRules] hands out the stored pointers: a store through one
    of them shows in the next snapshot. *)
Lemma getRules_shares_rules :
  getRules_in [4; 0]%N (state loadedPackage) = [Some 0; Some 3; Some 2]
  ∧ snapshot [4; 0]%N (state loadedPackage)
    = Some [exampleMem 0; exampleMem 3; exampleMem 2]
  ∧ snapshot [4; 0]%N (store_rule 0 zeroRule (state loadedPackage))
    = Some [zeroRule; exampleMem 3; exampleMem 2].
Proof. split_and!; reflexivity. Qed.

Lemma LoadRules_handler_error_witness :
  ruleUpdateHandler rejectingPackage onRuleUpdate
    (buildRuleMap (decls := exampleDecls) (Some exampleRules) (state rejectingPackage)).1
    (buildRuleMap (decls := exampleDecls) (Some exampleRules) (state rejectingPackage)).2
  = (Some "rejected"%string,
     (buildRuleMap (decls := exampleDecls) (Some exampleRules) (state rejectingPackage)).2)
  ∧ (LoadRules (decls := exampleDecls) (Some exampleRules) rejectingPackage).1
    = (false, Some "rejected"%string)
  ∧ ruleMap (state (LoadRules (decls := exampleDecls)
                      (Some exampleRules) rejectingPackage).2)
    = ruleMap (state rejectingPackage).
Proof.
  assert (H1 : ruleUpdateHandler rejectingPackage onRuleUpdate
    (buildRuleMap (decls := exampleDecls) (Some exampleRules) (state rejectingPackage)).1
    (buildRuleMap (decls := exampleDecls) (Some exampleRules) (state rejectingPackage)).2
    = (Some "rejected"%string,
       (buildRuleMap (decls := exampleDecls) (Some exampleRules)
          (state rejectingPackage)).2)) by reflexivity.
  split_and!; [exact H1 | |].
  - exact (proj1 (LoadRules_handler_error (decls := exampleDecls)
                    rejectingPackage (Some exampleRules) _ _ H1)).
  - apply (proj2 (proj2 (LoadRules_handler_error (decls := exampleDecls)
                    rejectingPackage (Some exampleRules) _ _ H1))).
    apply guardedHandler_keeps.
Defined.

(** A handler that invokes the installer callback and then returns an error:
    [LoadRules] reports the failure, yet the candidate index is installed. *)
Lemma LoadRules_error_after_install :
  (ruleUpdateHandler failingPackage onRuleUpdate
     (buildRuleMap (decls := exampleDecls) (Some exampleRules) (state failingPackage)).1
     (buildRuleMap (decls := exampleDecls) (Some exampleRules) (state failingPackage)).2).1
  = Some "fan-out failed"%string
  ∧ ¬ ((LoadRules (decls := exampleDecls) (Some exampleRules) failingPackage).1
       = (false, Some "fan-out failed"%string)
       ∧ ruleMap (state (LoadRules (decls := exampleDecls)
                           (Some exampleRules) failingPackage).2)
         = ruleMap (state failingPackage)).
Proof.
  split; [reflexivity|]. intros [_ Heq].
  apply (f_equal (λ m : RuleMap, m !! 0%N)) in Heq.
  vm_compute in Heq. discriminate.
Qed.

(** ** Further properties on the concrete package *)

Lemma LoadRules_default_trace_witness :
  ruleUpdateHandler examplePackage = defaultRuleUpdateHandler
  ∧ trace (state (LoadRules (decls := exampleDecls) (Some exampleRules)
                    examplePackage).2)
    = [RegisterRuleCheckSlotForResource "system";
       LogWarnInvalidRule (Some 1) errInvalidCpuUsage;
       LogWarnInvalidRule None errNilRule;
       RegisterRuleCheckSlotForResource "system";
       RegisterRuleCheckSlotForResource "system";
       LogDebugTimeCost;
       LogInfoRulesLoaded
         (buildRuleMap (decls := exampleDecls) (Some exampleRules)
            (state examplePackage)).1].
Proof.
  assert (H1 : ruleUpdateHandler examplePackage = defaultRuleUpdateHandler)
    by reflexivity.
  split; [exact H1|].
  rewrite (LoadRules_default_trace (decls := exampleDecls)
             examplePackage (Some exampleRules) H1).
  reflexivity.
Defined.

Lemma LoadRules_error_trace_witness :
  ruleUpdateHandler rejectingPackage onRuleUpdate
    (buildRuleMap (decls := exampleDecls) (Some exampleRules) (state rejectingPackage)).1
    (buildRuleMap (decls := exampleDecls) (Some exampleRules) (state rejectingPackage)).2
  = (Some "rejected"%string,
     (buildRuleMap (decls := exampleDecls) (Some exampleRules) (state rejectingPackage)).2)
  ∧ trace (state (LoadRules (decls := exampleDecls) (Some exampleRules)
                    rejectingPackage).2)
    = trace (state rejectingPackage)
      ++ (candidate_event (decls := exampleDecls) (mem (state rejectingPackage))
            <$> exampleRules)
      ++ [LogErrorLoadFailed "rejected" (Some exampleRules)].
Proof.
  assert (H1 : ruleUpdateHandler rejectingPackage onRuleUpdate
    (buildRuleMap (decls := exampleDecls) (Some exampleRules) (state rejectingPackage)).1
    (buildRuleMap (decls := exampleDecls) (Some exampleRules) (state rejectingPackage)).2
    = (Some "rejected"%string,
       (buildRuleMap (decls := exampleDecls) (Some exampleRules)
          (state rejectingPackage)).2)) by reflexivity.
  split; [exact H1|].
  exact (proj2 (proj2 (proj2 (proj2 (LoadRules_error_trace (decls := exampleDecls)
           rejectingPackage (Some exampleRules) _ _ H1)))) eq_refl).
Defined.

Lemma LoadRules_replaces_witness :
  ruleUpdateHandler examplePackage = defaultRuleUpdateHandler
  ∧ ruleMap (state (LoadRules (decls := exampleDecls) (Some exampleValid)
              (LoadRules (decls := exampleDecls) (Some exampleRules)
                 examplePackage).2).2)
    = ruleMap (state (LoadRules (decls := exampleDecls) (Some exampleValid)
                        examplePackage).2).
Proof.
  assert (H1 : ruleUpdateHandler examplePackage = defaultRuleUpdateHandler)
    by reflexivity.
  split; [exact H1|].
  exact (proj1 (proj2 (LoadRules_replaces (decls := exampleDecls) examplePackage
           (Some exampleRules) (Some exampleValid) [] H1))).
Defined.

Lemma LoadRules_keeps_pointers_witness :
  ruleUpdateHandler examplePackage = defaultRuleUpdateHandler
  ∧ allocated (state examplePackage) exampleRules
  ∧ Some 0 ∈ exampleRules
  ∧ IsValidSystemRule (decls := exampleDecls) (mem (state examplePackage)) (Some 0)
    = None
  ∧ IsValidSystemRule (decls := exampleDecls)
      (<[0 := overloadRule]> (mem (state examplePackage))) (Some 0) ≠ None
  ∧ iteration_order (ruleMap (state loadedPackage)) [4; 0]%N
  ∧ ∃ vals, snapshot [4; 0]%N (store_rule 0 overloadRule (state loadedPackage))
            = Some vals
            ∧ overloadRule ∈ vals.
Proof.
  assert (H1 : ruleUpdateHandler examplePackage = defaultRuleUpdateHandler)
    by reflexivity.
  assert (H2 : allocated (state examplePackage) exampleRules)
    by (by apply exampleRules_allocated).
  assert (H3 : Some 0 ∈ exampleRules) by left.
  assert (H4 : IsValidSystemRule (decls := exampleDecls)
                 (mem (state examplePackage)) (Some 0) = None) by reflexivity.
  assert (H5 : iteration_order (ruleMap (state loadedPackage)) [4; 0]%N).
  { unfold iteration_order. vm_compute. reflexivity. }
  split_and!; [exact H1 | exact H2 | exact H3 | exact H4 | | exact H5 |].
  - vm_compute. discriminate.
  - destruct (LoadRules_keeps_pointers (decls := exampleDecls) examplePackage
                exampleRules [4; 0]%N 0 overloadRule H1 H2 H3 H4 H5)
      as (vals & Hsnap & Hin & _).
    by exists vals.
Defined.

Lemma getRules_shares_witness :
  wf_state (state loadedPackage)
  ∧ Some 3 ∈ getRules_in [4; 0]%N (state loadedPackage)
  ∧ snapshot [4; 0]%N (store_rule 3 overloadRule (state loadedPackage))
    = Some (targets (<[3 := overloadRule]> (mem (state loadedPackage)))
              (getRules_in [4; 0]%N (state loadedPackage))).
Proof.
  assert (H2 : Some 3 ∈ getRules_in [4; 0]%N (state loadedPackage)).
  { vm_compute. right. left. }
  split_and!; [exact loadedPackage_wf | exact H2 |].
  exact (proj1 (proj2 (proj2 (getRules_shares (state loadedPackage) [4; 0]%N 3
           overloadRule loadedPackage_wf H2)))).
Defined.

Lemma GetRules_only_reads_witness :
  wf_state (state loadedPackage)
  ∧ ∃ s st',
      GetRules_in [4; 0]%N (state loadedPackage) = Some (s, st')
      ∧ len s = 3
      ∧ ruleMap st' = ruleMap (state loadedPackage).
Proof.
  split; [exact loadedPackage_wf|].
  destruct (GetRules_only_reads (state loadedPackage) [4; 0]%N loadedPackage_wf)
    as (s & st' & Hget & Hlen & _ & Hmap & _).
  exists s, st'. split_and!; [exact Hget | | exact Hmap].
  rewrite Hlen. reflexivity.
Defined.

Lemma IsValidSystemRule_accepts_nan_witness :
  F64.is_nan (TriggerCount (mem nanState 0)) = true
  ∧ (MetricType (mem nanState 0) < @MetricTypeSize exampleDecls)%N
  ∧ Some 0 ∈ elems (Some [Some 0])
  ∧ IsValidSystemRule (decls := exampleDecls) (mem nanState) (Some 0) = None.
Proof.
  assert (H1 : F64.is_nan (TriggerCount (mem nanState 0)) = true) by reflexivity.
  assert (H2 : (MetricType (mem nanState 0) < @MetricTypeSize exampleDecls)%N)
    by (simpl; lia).
  assert (H3 : Some 0 ∈ elems (Some [Some 0])) by left.
  split_and!; [exact H1 | exact H2 | exact H3 |].
  exact (proj1 (IsValidSystemRule_accepts_nan (decls := exampleDecls)
           (Some [Some 0]) nanState 0 H1 H2 H3)).
Defined.

Lemma ClearRules_error_witness :
  ruleUpdateHandler guardedLoadedPackage onRuleUpdate ∅ (state guardedLoadedPackage)
  = (Some "rejected"%string, state guardedLoadedPackage)
  ∧ (ClearRules (decls := exampleDecls) guardedLoadedPackage).1
    = Some "rejected"%string
  ∧ ruleMap (state (ClearRules (decls := exampleDecls) guardedLoadedPackage).2)
    = ruleMap (state loadedPackage).
Proof.
  assert (H1 : ruleUpdateHandler guardedLoadedPackage onRuleUpdate ∅
                 (state guardedLoadedPackage)
               = (Some "rejected"%string, state guardedLoadedPackage))
    by reflexivity.
  split_and!; [exact H1 | |].
  - exact (proj1 (ClearRules_error (decls := exampleDecls)
             guardedLoadedPackage _ _ H1)).
  - exact (proj1 (proj2 (ClearRules_error (decls := exampleDecls)
             guardedLoadedPackage _ _ H1))).
Defined.
